(** * relocperf: the pose matcher, the sequence evaluator and the summary

    A shallow embedding of [apps/relocperf/main.cpp].

    - [float] values are IEEE-754 binary32 numbers, computed with the
      executable specification of the Standard Library ([SpecFloat], precision
      24, largest exponent 128); the one [double] expression of the program
      (the angle threshold) is computed in binary64 and then narrowed.
    - [int] values are integers in [Z]; an addition whose result leaves the
      range of a 32-bit [int] is undefined behaviour and is reported as such.
    - The file system is a finite map from paths to nodes; the program only
      asks whether a path is a regular file and reads the numbers of a file.
    - Functions that touch the file system return an outcome together with the
      list of the file-system events they caused, in the order of the calls. *)

From Stdlib Require Import ZArith Bool List Ascii String.
From Stdlib Require Import Floats.SpecFloat.
From Stdlib Require Import DecimalString DecimalN.
From stdpp Require Import base option list strings gmap sorting.

Local Open Scope Z_scope.

(* ===================================================================== *)
(** ** binary32 arithmetic *)
(* ===================================================================== *)

Module F32.

Definition prec : Z := 24.
Definition emax : Z := 128.

Definition float : Type := spec_float.

Definition zero : float := S754_zero false.
Definition nan : float := S754_nan.

Definition add : float -> float -> float := SFadd prec emax.
Definition sub : float -> float -> float := SFsub prec emax.
Definition mul : float -> float -> float := SFmul prec emax.
Definition div : float -> float -> float := SFdiv prec emax.
Definition sqrt : float -> float := SFsqrt prec emax.
Definition leb : float -> float -> bool := SFleb.
Definition ltb : float -> float -> bool := SFltb.

(** [static_cast<float>(n)] and the implicit conversion of an integer
    operand: the nearest binary32 number, ties to even. *)
Definition of_Z (n : Z) : float := binary_normalize prec emax n 0 false.

(** A [float] is finite when it is neither an infinity nor a NaN. *)
Definition is_finite (x : float) : bool :=
  match x with
  | S754_zero _ | S754_finite _ _ _ => true
  | S754_infinity _ | S754_nan => false
  end.

(** Conversion of a binary64 value to binary32 (the initialisation of a
    [float] from a [double] expression). *)
Definition of_double (x : spec_float) : float :=
  match x with
  | S754_finite s m e => binary_round prec emax s m e
  | _ => x
  end.

End F32.

Module F64.

Definition prec : Z := 53.
Definition emax : Z := 1024.

Definition mul : spec_float -> spec_float -> spec_float := SFmul prec emax.
Definition div : spec_float -> spec_float -> spec_float := SFdiv prec emax.

(** A [float] operand promoted to [double]: every binary32 number is a
    binary64 number; the mantissa is realigned to 53 bits. *)
Definition of_float (x : spec_float) : spec_float :=
  match x with
  | S754_finite s m e => binary_round prec emax s m e
  | _ => x
  end.

(** [M_PI] of <cmath>: 0x400921FB54442D18. *)
Definition M_PI : spec_float := S754_finite false 7074237752028440 (-51).

End F64.

Abbreviation float := F32.float.

(* ===================================================================== *)
(** ** The Eigen values and operations the program uses *)
(* ===================================================================== *)

(** Eigen is a third-party library and not part of the repository. Its
    vectors and matrices are modelled by their coefficients, and its
    operations by their usual meaning, every arithmetic operation rounded to
    binary32. *)
Module Eigen.

(** [Eigen::Vector3f]. *)
Record Vector3f : Type := Vec3 { vx : float; vy : float; vz : float }.

(** [Eigen::Matrix3f], coefficient [cIJ] is [m(I, J)]. *)
Record Matrix3f : Type := Mat3 {
  c00 : float; c01 : float; c02 : float;
  c10 : float; c11 : float; c12 : float;
  c20 : float; c21 : float; c22 : float
}.

(** [Eigen::Matrix4f]: the sixteen coefficients, row after row. A list
    shorter than sixteen yields NaN for the coefficients it lacks. *)
Definition Matrix4f : Type := list float.

Definition coeff (m : Matrix4f) (i j : nat) : float :=
  nth (4 * i + j) m F32.nan.

(** [m(i, j) = v]. *)
Definition set_coeff (m : Matrix4f) (i j : nat) (v : float) : Matrix4f :=
  <[(4 * i + j)%nat := v]> m.

(** [m.block<3, 3>(0, 0)]: the rotation part of a pose. *)
Definition block33 (m : Matrix4f) : Matrix3f :=
  Mat3 (coeff m 0 0) (coeff m 0 1) (coeff m 0 2)
       (coeff m 1 0) (coeff m 1 1) (coeff m 1 2)
       (coeff m 2 0) (coeff m 2 1) (coeff m 2 2).

(** [m.block<3, 1>(0, 3)]: the translation part of a pose. *)
Definition block31 (m : Matrix4f) : Vector3f :=
  Vec3 (coeff m 0 3) (coeff m 1 3) (coeff m 2 3).

Definition vsub (a b : Vector3f) : Vector3f :=
  Vec3 (F32.sub (vx a) (vx b)) (F32.sub (vy a) (vy b)) (F32.sub (vz a) (vz b)).

(** Modelled from the spec: Eigen is a third-party library, not part of
    the repository. The sum of three products, as the inner product of two
    3-vectors and each coefficient of a 3x3 product compute it. Eigen does
    not promise the order of the two additions; they are taken left to
    right here. *)
Definition dot3 (a0 a1 a2 b0 b1 b2 : float) : float :=
  F32.add (F32.add (F32.mul a0 b0) (F32.mul a1 b1)) (F32.mul a2 b2).

Definition squaredNorm (a : Vector3f) : float :=
  dot3 (vx a) (vy a) (vz a) (vx a) (vy a) (vz a).

(** [a.norm()]: the Euclidean norm. *)
Definition norm (a : Vector3f) : float := F32.sqrt (squaredNorm a).

Definition transpose (m : Matrix3f) : Matrix3f :=
  Mat3 (c00 m) (c10 m) (c20 m)
       (c01 m) (c11 m) (c21 m)
       (c02 m) (c12 m) (c22 m).

(** [a * b] on 3x3 matrices. *)
Definition mmul (a b : Matrix3f) : Matrix3f :=
  Mat3 (dot3 (c00 a) (c01 a) (c02 a) (c00 b) (c10 b) (c20 b))
       (dot3 (c00 a) (c01 a) (c02 a) (c01 b) (c11 b) (c21 b))
       (dot3 (c00 a) (c01 a) (c02 a) (c02 b) (c12 b) (c22 b))
       (dot3 (c10 a) (c11 a) (c12 a) (c00 b) (c10 b) (c20 b))
       (dot3 (c10 a) (c11 a) (c12 a) (c01 b) (c11 b) (c21 b))
       (dot3 (c10 a) (c11 a) (c12 a) (c02 b) (c12 b) (c22 b))
       (dot3 (c20 a) (c21 a) (c22 a) (c00 b) (c10 b) (c20 b))
       (dot3 (c20 a) (c21 a) (c22 a) (c01 b) (c11 b) (c21 b))
       (dot3 (c20 a) (c21 a) (c22 a) (c02 b) (c12 b) (c22 b)).

Definition trace (m : Matrix3f) : float :=
  F32.add (F32.add (c00 m) (c11 m)) (c22 m).

Definition one : float := F32.of_Z 1.
Definition two : float := F32.of_Z 2.
Definition minus_one : float := F32.of_Z (-1).

(** The cosine clamped to [-1, 1]. *)
Definition clamp_cos (c : float) : float :=
  if F32.ltb c minus_one then minus_one
  else if F32.ltb one c then one
  else c.

Section AngleAxis.

(** The inverse cosine of the C library, on binary32. *)
Variable acosf : float -> float.

(** Modelled from the spec: [Eigen::AngleAxisf(m).angle()] belongs to the
    Eigen library. The spec describes it as the angle of the angle-axis
    decomposition of the rotation, in [0, pi], obtained as the inverse
    cosine of the trace-derived cosine [(trace m - 1) / 2] clamped to
    [-1, 1]. *)
Definition angle_axis_angle (m : Matrix3f) : float :=
  acosf (clamp_cos (F32.div (F32.sub (trace m) one) two)).

End AngleAxis.

End Eigen.

Import Eigen.

(* ===================================================================== *)
(** ** The pose matcher *)
(* ===================================================================== *)

(** [0.05f]: the binary32 number nearest to 0.05. *)
Definition translationMaxError : float := S754_finite false 13421773 (-28).

(** [5.f * M_PI / 180.f]: [M_PI] is a [double], so the product and the
    quotient are computed in binary64 and the result is narrowed. *)
Definition angleMaxError : float :=
  F32.of_double
    (F64.div (F64.mul (F64.of_float (F32.of_Z 5)) F64.M_PI)
             (F64.of_float (F32.of_Z 180))).

Section Matcher.

Variable acosf : float -> float.

Definition angular_separation (r1 r2 : Matrix3f) : float :=
  (* First calculate the rotation matrix which maps r1 to r2. *)
  let dr := mmul r2 (transpose r1) in
  (* Then compute the corresponding angle-axis transform and return the angle. *)
  angle_axis_angle acosf dr.

Definition pose_matches (gtPose testPose : Matrix4f) : bool :=
  let gtR := block33 gtPose in
  let testR := block33 testPose in
  let gtT := block31 gtPose in
  let testT := block31 testPose in
  let translationError := norm (vsub gtT testT) in
  let angleError := angular_separation gtR testR in
  F32.leb translationError translationMaxError && F32.leb angleError angleMaxError.

End Matcher.

(* ===================================================================== *)
(** ** Integers of type [int] *)
(* ===================================================================== *)

Definition INT_MIN : Z := -2147483648.
Definition INT_MAX : Z := 2147483647.

Definition in_int_range (x : Z) : bool := (INT_MIN <=? x) && (x <=? INT_MAX).

(** [x + y] on [int]: signed overflow is undefined behaviour, [None]. *)
Definition int_add (x y : Z) : option Z :=
  if in_int_range (x + y) then Some (x + y) else None.

(** The conversion of a [bool] operand in [n += b]. *)
Definition int_of_bool (b : bool) : Z := if b then 1 else 0.

(* ===================================================================== *)
(** ** Files, streams and the outcome of a call *)
(* ===================================================================== *)

Abbreviation path := string.

Definition tab : string := String (Ascii.ascii_of_nat 9) EmptyString.
Definition newline : string := String (Ascii.ascii_of_nat 10) EmptyString.
Definition dquote : string := String (Ascii.ascii_of_nat 34) EmptyString.

(** [a / b] on [boost::filesystem::path]. *)
Definition path_append (a b : path) : path := a +:+ "/" +:+ b.

(** What [in >> x] finds next in a text file: a number, or text the
    conversion to [float] rejects. A rejected conversion still assigns to its
    target ([stored]: zero when no number is read, the largest magnitude when
    the number is out of range). *)
Inductive token : Type :=
  | Number (x : float)
  | Malformed (stored : float).

(** What a path names. A path without a node does not exist. *)
Inductive node : Type :=
  | Regular (content : list token)   (* a regular file *)
  | NotRegular                       (* a directory or a special file *)
  | Inaccessible.                    (* the status cannot be determined *)

Abbreviation filesystem := (gmap string node).

Inductive exn : Type :=
  | runtime_error (what : string)      (* std::runtime_error *)
  | filesystem_error (p : path).       (* boost::filesystem::filesystem_error *)

Inductive event : Type :=
  | Status (p : path)                  (* the status of a path is queried *)
  | Read (p : path)                    (* a file is opened and read *)
  | Cerr (text : string).              (* text is written to std::cerr *)

Inductive outcome (A : Type) : Type :=
  | Ok (a : A)
  | Throw (e : exn)
  | Undefined                          (* undefined behaviour was reached *)
  | OutOfFuel.                         (* the loop bound of the model ran out *)

Arguments Ok {A} a.
Arguments Throw {A} e.
Arguments Undefined {A}.
Arguments OutOfFuel {A}.

(** A call yields its outcome and the events it caused, oldest first. *)
Definition IO (A : Type) : Type := (outcome A * list event)%type.

#[global] Instance io_ret : MRet IO := λ A a, (Ok a, []).

#[global] Instance io_bind : MBind IO := λ A B f m,
  match m with
  | (Ok a, t) => let '(r, t') := f a in (r, t ++ t')
  | (Throw e, t) => (Throw e, t)
  | (Undefined, t) => (Undefined, t)
  | (OutOfFuel, t) => (OutOfFuel, t)
  end.

Definition throw {A : Type} (e : exn) : IO A := (Throw e, []).

Definition emit (e : event) : IO unit := (Ok tt, [e]).

(** A computation on [int] inside a call. *)
Definition defined {A : Type} (o : option A) : IO A :=
  match o with
  | Some a => (Ok a, [])
  | None => (Undefined, [])
  end.

(** [try { m } catch(std::runtime_error &) { h }]. Both exception classes of
    the model derive from [std::runtime_error]. *)
Definition try_catch {A : Type} (m : IO A) (h : IO A) : IO A :=
  match m with
  | (Throw _, t) => let '(r, t') := h in (r, t ++ t')
  | other => other
  end.

(** [fs::is_regular(p)]: true for a regular file, false for a path that
    does not exist or names something else; throws when the status of the
    path cannot be determined. *)
Definition is_regular (fs : filesystem) (p : path) : IO bool :=
  match fs !! p with
  | Some (Regular _) => (Ok true, [Status p])
  | Some NotRegular | None => (Ok false, [Status p])
  | Some Inaccessible => (Throw (filesystem_error p), [Status p])
  end.

(** [std::ifstream]: the text that remains and the fail bit. A stream never
    throws: its exception mask is empty. *)
Record ifstream : Type := { remaining : list token; failbit : bool }.

(** [std::ifstream in(p)]: a file that cannot be opened gives a stream
    whose fail bit is set. *)
Definition open (fs : filesystem) (p : path) : ifstream :=
  match fs !! p with
  | Some (Regular content) => {| remaining := content; failbit := false |}
  | _ => {| remaining := []; failbit := true |}
  end.

(** [in >> x], with [old] the value of [x] before: a failed stream leaves
    [x] alone, and so does the end of the text. *)
Definition extract (s : ifstream) (old : float) : ifstream * float :=
  if failbit s then (s, old)
  else match remaining s with
       | [] => ({| remaining := []; failbit := true |}, old)
       | Number x :: rest => ({| remaining := rest; failbit := false |}, x)
       | Malformed stored :: rest => ({| remaining := rest; failbit := true |}, stored)
       end.

(** The order in which [read_pose_from_file] fills the coefficients. *)
Definition coefficient_order : list (nat * nat) :=
  [ (0, 0); (0, 1); (0, 2); (0, 3);
    (1, 0); (1, 1); (1, 2); (1, 3);
    (2, 0); (2, 1); (2, 2); (2, 3);
    (3, 0); (3, 1); (3, 2); (3, 3) ]%nat.

Definition extract_coeff (acc : ifstream * Matrix4f) (ij : nat * nat) : ifstream * Matrix4f :=
  let '(s, res) := acc in
  let '(s', v) := extract s (coeff res ij.1 ij.2) in
  (s', set_coeff res ij.1 ij.2 v).

Section Parser.

(** [Eigen::Matrix4f res;] is not initialised: its coefficients hold
    whatever the memory held when the function was called. *)
Variable garbage : nat -> float.

Definition uninitialised : Matrix4f := map garbage (seq 0 16).

Definition read_pose_from_file (fs : filesystem) (fileName : path) : IO Matrix4f :=
  regular ← is_regular fs fileName;
  if negb regular then throw (runtime_error ("File not found: " +:+ fileName))
  else
    _ ← emit (Read fileName);
    let in_ := open fs fileName in
    (* The Matrix is stored in row-major order on disk. *)
    mret (fold_left extract_coeff coefficient_order (in_, uninitialised)).2.

End Parser.

(* ===================================================================== *)
(** ** The sequence evaluator *)
(* ===================================================================== *)

(** Struct used to accumulate stats on a dataset sequence. *)
Record SequenceResults : Type := {
  poseCount : Z;
  validPosesAfterReloc : Z;
  validPosesAfterICP : Z;
  validFinalPoses : Z;
  relocalizationResults : list bool;
  icpResults : list bool;
  finalResults : list bool
}.

(** The value of a default-constructed [SequenceResults]. *)
Definition SequenceResults_default : SequenceResults :=
  {| poseCount := 0; validPosesAfterReloc := 0; validPosesAfterICP := 0;
     validFinalPoses := 0; relocalizationResults := []; icpResults := [];
     finalResults := [] |}.

#[global] Instance SequenceResults_inhabited : Inhabited SequenceResults :=
  populate SequenceResults_default.

(** Modelled from the spec: [tvgutil::SequentialPathGenerator] is declared
    in a header of the repository that is not among the sources. The spec
    gives the frame index as starting at 0 and incremented by 1, and the file
    names as fixed zero-padded numeric templates tied 1:1 to the index. *)
Record SequentialPathGenerator : Type := {
  m_baseDir : path;
  m_index : Z
}.

(** Modelled from the spec: the constructor, the index starts at 0. *)
Definition SequentialPathGenerator_new (baseDir : path) : SequentialPathGenerator :=
  {| m_baseDir := baseDir; m_index := 0 |}.

(** The decimal digits of a natural number. *)
Definition digits (n : N) : string := NilZero.string_of_uint (N.to_uint n).

Fixpoint zeros (k : nat) : string :=
  match k with
  | O => EmptyString
  | S k' => String "0"%char (zeros k')
  end.

(** The conversion [%06i]: the decimal digits, padded with zeros to a width
    of six; the sign of a negative number takes one of the six places. *)
Definition pad6 (i : Z) : string :=
  let d := digits (Z.abs_N i) in
  if i <? 0 then "-" +:+ zeros (5 - String.length d) +:+ d
  else zeros (6 - String.length d) +:+ d.

(** The pattern with its first [%06i] replaced by the index. *)
Fixpoint format_index (pattern : string) (i : Z) : string :=
  match pattern with
  | String "%"%char (String "0"%char (String "6"%char (String "i"%char rest))) =>
      pad6 i +:+ rest
  | String c rest => String c (format_index rest i)
  | EmptyString => EmptyString
  end.

(** Modelled from the spec: [make_path], the file named by the pattern and
    the current index, in the base directory. *)
Definition make_path (g : SequentialPathGenerator) (pattern : string) : path :=
  path_append (m_baseDir g) (format_index pattern (m_index g)).

(** Modelled from the spec: [increment_index], the index goes up by one. *)
Definition increment_index (g : SequentialPathGenerator) : option SequentialPathGenerator :=
  index ← int_add (m_index g) 1;
  Some {| m_baseDir := m_baseDir g; m_index := index |}.

(** The variables of the loop of [evaluate_sequence]. *)
Record LoopState : Type := {
  gtPathGenerator : SequentialPathGenerator;
  relocPathGenerator : SequentialPathGenerator;
  res : SequenceResults
}.

Section Evaluator.

Variable acosf : float -> float.

(** What the uninitialised matrix of [read_pose_from_file] holds at the call
    that reads a given file. The memory of that matrix is what earlier calls
    left there, so it differs from one call to the next; an evaluation reads
    no file twice, which makes the file read a name for the call. *)
Variable garbage : path -> nat -> float.

Definition pose_file_matches (fs : filesystem) (gtPose : Matrix4f) (poseFile : path) : IO bool :=
  regular ← is_regular fs poseFile;
  if negb regular then mret false
  else
    otherPose ← read_pose_from_file (garbage poseFile) fs poseFile;
    mret (pose_matches acosf gtPose otherPose).

(** One turn of the [while(true)] loop: [None] when the loop is left by
    [break], the variables after the turn otherwise. *)
Definition evaluate_frame (fs : filesystem) (st : LoopState) : IO (option LoopState) :=
  (* Generate the paths to evaluate. *)
  let gtPath := make_path (gtPathGenerator st) "frame-%06i.pose.txt" in
  let relocPath := make_path (relocPathGenerator st) "pose-%06i.reloc.txt" in
  let icpPath := make_path (relocPathGenerator st) "pose-%06i.icp.txt" in
  let finalPath := make_path (relocPathGenerator st) "pose-%06i.final.txt" in
  (* If the GT file is missing this sequence is over. *)
  regular ← is_regular fs gtPath;
  if negb regular then mret None
  else
    (* Read the GT camera pose. *)
    gtPose ← read_pose_from_file (garbage gtPath) fs gtPath;
    (* Check whether different kinds of relocalisations succeeded. *)
    validReloc ← pose_file_matches fs gtPose relocPath;
    validICP ← pose_file_matches fs gtPose icpPath;
    validFinal ← pose_file_matches fs gtPose finalPath;
    (* Accumulate stats. *)
    afterReloc ← defined (int_add (validPosesAfterReloc (res st)) (int_of_bool validReloc));
    afterICP ← defined (int_add (validPosesAfterICP (res st)) (int_of_bool validICP));
    final ← defined (int_add (validFinalPoses (res st)) (int_of_bool validFinal));
    (* Increment counters. *)
    count ← defined (int_add (poseCount (res st)) 1);
    gtGen ← defined (increment_index (gtPathGenerator st));
    relocGen ← defined (increment_index (relocPathGenerator st));
    mret (Some {|
      gtPathGenerator := gtGen;
      relocPathGenerator := relocGen;
      res := {|
        poseCount := count;
        validPosesAfterReloc := afterReloc;
        validPosesAfterICP := afterICP;
        validFinalPoses := final;
        relocalizationResults := relocalizationResults (res st) ++ [validReloc];
        icpResults := icpResults (res st) ++ [validICP];
        finalResults := finalResults (res st) ++ [validFinal]
      |}
    |}).

(** [while(true) { ... }], with a bound on the number of turns. *)
Fixpoint evaluate_loop (fuel : nat) (fs : filesystem) (st : LoopState) : IO SequenceResults :=
  match fuel with
  | O => (OutOfFuel, [])
  | S fuel' =>
      next ← evaluate_frame fs st;
      match next with
      | None => mret (res st)
      | Some st' => evaluate_loop fuel' fs st'
      end
  end.

Definition evaluate_sequence (fuel : nat) (fs : filesystem) (gtFolder relocFolder : path)
  : IO SequenceResults :=
  evaluate_loop fuel fs {|
    (* Create appropriate path generators. *)
    gtPathGenerator := SequentialPathGenerator_new gtFolder;
    relocPathGenerator := SequentialPathGenerator_new relocFolder;
    res := SequenceResults_default
  |}.

End Evaluator.

(* ===================================================================== *)
(** ** [main]: the driver, the summary and the CSV export *)
(* ===================================================================== *)

Definition trainFolderName : string := "train".
Definition validationFolderName : string := "validation".
Definition testFolderName : string := "test".

(** The options of the command line. *)
Record Options : Type := {
  datasetFolder : path;
  relocBaseFolder : path;
  relocTag : string;
  useValidation : bool;
  onlineEvaluation : bool
}.

(** [std::cerr << p] for a path: the path between double quotes. *)
Definition quoted (p : path) : string := dquote +:+ p +:+ dquote.

(** [results[sequence]] where it is read: a sequence without an entry reads
    as a default-constructed [SequenceResults] (the entry [operator[]]
    inserts holds that same value). *)
Definition results_at (results : gmap string SequenceResults) (sequence : string)
  : SequenceResults :=
  results !!! sequence.

(** The folder of the ground truth poses of a sequence. *)
Definition sequence_gtPath (opts : Options) (sequence : string) : path :=
  path_append (path_append (datasetFolder opts) sequence)
    (if useValidation opts then validationFolderName else testFolderName).

(** The folder of the relocalisation results of a sequence. *)
Definition sequence_relocFolder (opts : Options) (sequence : string) : path :=
  path_append (relocBaseFolder opts) (relocTag opts +:+ "_" +:+ sequence).

Definition processing_message (opts : Options) (sequence : string) : string :=
  "Processing sequence " +:+ sequence +:+ " in: " +:+ quoted (sequence_gtPath opts sequence)
    +:+ tab +:+ " - " +:+ quoted (sequence_relocFolder opts sequence) +:+ newline.

Definition not_evaluated_message : string :=
  tab +:+ "Sequence has not been evaluated." +:+ newline.

Section Driver.

Variable acosf : float -> float.

(** What the uninitialised matrix holds at the call that reads a given
    file, as in the evaluator. *)
Variable garbage : path -> nat -> float.
Variable fuel : nat.
Variable fs : filesystem.
Variable opts : Options.

(** The loop "Evaluate each sequence", from the sequence at hand on. When
    the evaluation throws, the assignment to [results[sequence]] does not
    take place; whether [operator[]] had inserted a default-constructed entry
    by then is not fixed by the language before C++17, and such an entry
    holds what a missing entry reads as (see [results_at]). *)
Fixpoint evaluate_sequences (sequenceNames : list string)
    (results : gmap string SequenceResults) : IO (gmap string SequenceResults) :=
  match sequenceNames with
  | [] => mret results
  | sequence :: rest =>
      (* Compute the full paths. *)
      let gtPath := sequence_gtPath opts sequence in
      let relocFolder := sequence_relocFolder opts sequence in
      _ ← emit (Cerr (processing_message opts sequence));
      results' ← try_catch
        (r ← evaluate_sequence acosf garbage fuel fs gtPath relocFolder;
         mret (<[sequence := r]> results))
        (_ ← emit (Cerr not_evaluated_message);
         mret results);
      evaluate_sequences rest results'
  end.

End Driver.

Definition hundred : float := F32.of_Z 100.

(** A row of the table: the sequence, its number of poses and the three
    percentages. *)
Record TableRow : Type := {
  row_sequence : string;
  row_poses : Z;
  row_relocPct : float;
  row_icpPct : float;
  row_finalPct : float
}.

Definition table_row (results : gmap string SequenceResults) (sequence : string) : TableRow :=
  let seqResult := results_at results sequence in
  {| row_sequence := sequence;
     row_poses := poseCount seqResult;
     row_relocPct :=
       F32.mul (F32.div (F32.of_Z (validPosesAfterReloc seqResult)) (F32.of_Z (poseCount seqResult))) hundred;
     row_icpPct :=
       F32.mul (F32.div (F32.of_Z (validPosesAfterICP seqResult)) (F32.of_Z (poseCount seqResult))) hundred;
     row_finalPct :=
       F32.mul (F32.div (F32.of_Z (validFinalPoses seqResult)) (F32.of_Z (poseCount seqResult))) hundred |}.

(** The variables of the loop "Compute average performance". *)
Record Sums : Type := {
  relocSum : float;
  icpSum : float;
  finalSum : float;
  relocRawSum : float;
  icpRawSum : float;
  finalRawSum : float;
  poseCountSum : Z
}.

Definition Sums_initial : Sums :=
  {| relocSum := F32.zero; icpSum := F32.zero; finalSum := F32.zero;
     relocRawSum := F32.zero; icpRawSum := F32.zero; finalRawSum := F32.zero;
     poseCountSum := 0 |}.

(** One turn of that loop. *)
Definition accumulate (results : gmap string SequenceResults) (sums : Sums) (sequence : string)
  : option Sums :=
  let seqResult := results_at results sequence in
  (* Non-weighted average, we need percentages *)
  let relocPct := F32.div (F32.of_Z (validPosesAfterReloc seqResult)) (F32.of_Z (poseCount seqResult)) in
  let icpPct := F32.div (F32.of_Z (validPosesAfterICP seqResult)) (F32.of_Z (poseCount seqResult)) in
  let finalPct := F32.div (F32.of_Z (validFinalPoses seqResult)) (F32.of_Z (poseCount seqResult)) in
  total ← int_add (poseCountSum sums) (poseCount seqResult);
  Some {| relocSum := F32.add (relocSum sums) relocPct;
          icpSum := F32.add (icpSum sums) icpPct;
          finalSum := F32.add (finalSum sums) finalPct;
          relocRawSum := F32.add (relocRawSum sums) (F32.of_Z (validPosesAfterReloc seqResult));
          icpRawSum := F32.add (icpRawSum sums) (F32.of_Z (validPosesAfterICP seqResult));
          finalRawSum := F32.add (finalRawSum sums) (F32.of_Z (validFinalPoses seqResult));
          poseCountSum := total |}.

Fixpoint accumulate_all (results : gmap string SequenceResults) (sequenceNames : list string)
    (sums : Sums) : option Sums :=
  match sequenceNames with
  | [] => Some sums
  | sequence :: rest =>
      sums' ← accumulate results sums sequence;
      accumulate_all results rest sums'
  end.

(** The two summary rows of the table. *)
Record Summary : Type := {
  relocAvg : float;
  icpAvg : float;
  finalAvg : float;
  relocWeightedAvg : float;
  icpWeightedAvg : float;
  finalWeightedAvg : float
}.

Definition compute_averages (sequenceNames : list string) (results : gmap string SequenceResults)
  : option Summary :=
  sums ← accumulate_all results sequenceNames Sums_initial;
  let size := F32.of_Z (Z.of_nat (length sequenceNames)) in
  let count := F32.of_Z (poseCountSum sums) in
  Some {| relocAvg := F32.mul (F32.div (relocSum sums) size) hundred;
          icpAvg := F32.mul (F32.div (icpSum sums) size) hundred;
          finalAvg := F32.mul (F32.div (finalSum sums) size) hundred;
          relocWeightedAvg := F32.mul (F32.div (relocRawSum sums) count) hundred;
          icpWeightedAvg := F32.mul (F32.div (icpRawSum sums) count) hundred;
          finalWeightedAvg := F32.mul (F32.div (finalRawSum sums) count) hundred |}.

(** A data row of a CSV file, field by field in the order of the header. *)
Record CsvRow : Type := {
  FrameIdx : Z;
  FramePct : float;
  RelocSuccess : bool;
  RelocSum : Z;
  RelocPct : float;
  ICPSuccess : bool;
  ICPSum : Z;
  ICPPct : float
}.

Record CsvFile : Type := {
  csv_name : string;
  csv_header : string;
  csv_rows : list CsvRow
}.

Definition csv_header_line : string :=
  "FrameIdx; FramePct; Reloc Success; Reloc Sum; Reloc Pct; ICP Success; ICP Sum; ICP Pct" +:+ newline.

(** [for(int poseIdx = ...; poseIdx < seqResult.poseCount; ++poseIdx)] with
    [turns] turns left; reading a vector past its end is undefined. *)
Fixpoint export_rows (seqResult : SequenceResults) (turns : nat) (poseIdx relocSum icpSum : Z)
  : option (list CsvRow) :=
  match turns with
  | O => Some []
  | S turns' =>
      relocSuccess ← relocalizationResults seqResult !! Z.to_nat poseIdx;
      icpSuccess ← icpResults seqResult !! Z.to_nat poseIdx;
      relocSum' ← int_add relocSum (int_of_bool relocSuccess);
      icpSum' ← int_add icpSum (int_of_bool icpSuccess);
      let framePct := F32.div (F32.of_Z poseIdx) (F32.of_Z (poseCount seqResult)) in
      let relocPct := F32.div (F32.of_Z relocSum') (F32.of_Z poseIdx) in
      let icpPct := F32.div (F32.of_Z icpSum') (F32.of_Z poseIdx) in
      poseIdx' ← int_add poseIdx 1;
      rows ← export_rows seqResult turns' poseIdx' relocSum' icpSum';
      Some ({| FrameIdx := poseIdx; FramePct := framePct;
               RelocSuccess := relocSuccess; RelocSum := relocSum'; RelocPct := relocPct;
               ICPSuccess := icpSuccess; ICPSum := icpSum'; ICPPct := icpPct |} :: rows)
  end.

Definition export_sequence (onlineResultsFilenameStem : string)
    (results : gmap string SequenceResults) (sequence : string) : option CsvFile :=
  let seqResult := results_at results sequence in
  let outFilename := onlineResultsFilenameStem +:+ "_" +:+ sequence +:+ ".csv" in
  rows ← export_rows seqResult (Z.to_nat (poseCount seqResult)) 0 0 0;
  Some {| csv_name := outFilename; csv_header := csv_header_line; csv_rows := rows |}.

(** "Save results of online training-relocalization": the files written,
    in the order of the sequences. *)
Definition export_csv (opts : Options) (sequenceNames : list string)
    (results : gmap string SequenceResults) : option (list CsvFile) :=
  if onlineEvaluation opts
  then mapM (export_sequence (relocTag opts) results) sequenceNames
  else Some [].

(** What a run of the program leaves behind. *)
Record Report : Type := {
  report_table : list TableRow;
  report_summary : Summary;
  report_csv : list CsvFile
}.

Section Main.

Variable acosf : float -> float.
Variable garbage : path -> nat -> float.
Variable fuel : nat.

(** [main] from the point where the options are parsed and the sequences
    are found. *)
Definition main (fs : filesystem) (opts : Options) (sequenceNames : list string)
  : IO Report :=
  results ← evaluate_sequences acosf garbage fuel fs opts sequenceNames ∅;
  summary ← defined (compute_averages sequenceNames results);
  csv ← defined (export_csv opts sequenceNames results);
  mret {| report_table := map (table_row results) sequenceNames;
          report_summary := summary;
          report_csv := csv |}.

End Main.

(* ===================================================================== *)
(** ** The notions the statements use *)
(* ===================================================================== *)

(** The number of [true] entries of a sequence of booleans. *)
Fixpoint count_true (l : list bool) : Z :=
  match l with
  | [] => 0
  | b :: l' => int_of_bool b + count_true l'
  end.

(** The invariant of [SequenceResults]: the three sequences have
    [poseCount] entries and each counter is the number of [true] entries of
    its sequence. *)
Record results_invariant (r : SequenceResults) : Prop := {
  inv_reloc_length : Z.of_nat (length (relocalizationResults r)) = poseCount r;
  inv_icp_length : Z.of_nat (length (icpResults r)) = poseCount r;
  inv_final_length : Z.of_nat (length (finalResults r)) = poseCount r;
  inv_reloc_count : validPosesAfterReloc r = count_true (relocalizationResults r);
  inv_icp_count : validPosesAfterICP r = count_true (icpResults r);
  inv_final_count : validFinalPoses r = count_true (finalResults r)
}.

(** The four paths of frame [i] of a sequence. *)
Definition gt_path (gtFolder : path) (i : Z) : path :=
  make_path {| m_baseDir := gtFolder; m_index := i |} "frame-%06i.pose.txt".
Definition reloc_path (relocFolder : path) (i : Z) : path :=
  make_path {| m_baseDir := relocFolder; m_index := i |} "pose-%06i.reloc.txt".
Definition icp_path (relocFolder : path) (i : Z) : path :=
  make_path {| m_baseDir := relocFolder; m_index := i |} "pose-%06i.icp.txt".
Definition final_path (relocFolder : path) (i : Z) : path :=
  make_path {| m_baseDir := relocFolder; m_index := i |} "pose-%06i.final.txt".

Definition result_paths (relocFolder : path) (i : Z) : list path :=
  [reloc_path relocFolder i; icp_path relocFolder i; final_path relocFolder i].

Definition frame_paths (gtFolder relocFolder : path) (i : Z) : list path :=
  gt_path gtFolder i :: result_paths relocFolder i.

(** The path an event of the file system is about. *)
Definition event_path (e : event) : option path :=
  match e with
  | Status p | Read p => Some p
  | Cerr _ => None
  end.

(** A path that is not a regular file: it does not exist, or it names
    something else. *)
Definition missing (fs : filesystem) (p : path) : Prop :=
  fs !! p = None \/ fs !! p = Some NotRegular.

(** The matrix [read_pose_from_file] assembles from the text of a file. *)
Definition parsed (garbage : nat -> float) (content : list token) : Matrix4f :=
  (fold_left extract_coeff coefficient_order
     ({| remaining := content; failbit := false |}, uninitialised garbage)).2.

(** A text is well formed when it starts with sixteen numbers. *)
Definition is_number (t : token) : bool :=
  match t with
  | Number _ => true
  | Malformed _ => false
  end.

Definition well_formed (content : list token) : bool :=
  (16 <=? length content)%nat && forallb is_number (take 16 content).

(** The translation error in the words of the spec: the Euclidean norm of
    the difference of the two translation vectors, coefficient by
    coefficient. *)
Definition translation_error (gtPose testPose : Matrix4f) : float :=
  let dx := F32.sub (coeff gtPose 0 3) (coeff testPose 0 3) in
  let dy := F32.sub (coeff gtPose 1 3) (coeff testPose 1 3) in
  let dz := F32.sub (coeff gtPose 2 3) (coeff testPose 2 3) in
  F32.sqrt (F32.add (F32.add (F32.mul dx dx) (F32.mul dy dy)) (F32.mul dz dz)).

(** Coefficient [(i, i)] of the relative rotation
    [R_candidate * R_groundtruth^T], on the coefficients of the two poses:
    row [i] of the candidate's rotation against row [i] of the ground
    truth's. *)
Definition relative_rotation_diagonal (gtPose testPose : Matrix4f) (i : nat) : float :=
  F32.add (F32.add (F32.mul (coeff testPose i 0) (coeff gtPose i 0))
                   (F32.mul (coeff testPose i 1) (coeff gtPose i 1)))
          (F32.mul (coeff testPose i 2) (coeff gtPose i 2)).

(** The rotation error in the words of the spec: the angle of the relative
    rotation [R_candidate * R_groundtruth^T], that is the inverse cosine of
    the cosine derived from its trace, [(trace - 1) / 2], clamped to
    [-1, 1]. The error is written on the nine rotation coefficients of
    each pose, without the blocks, the transpose and the product of the
    code. *)
Definition rotation_error (acosf : float -> float) (gtPose testPose : Matrix4f) : float :=
  let trace := F32.add (F32.add (relative_rotation_diagonal gtPose testPose 0)
                                (relative_rotation_diagonal gtPose testPose 1))
                       (relative_rotation_diagonal gtPose testPose 2) in
  let cosine := F32.div (F32.sub trace (F32.of_Z 1)) (F32.of_Z 2) in
  acosf (if F32.ltb cosine (F32.of_Z (-1)) then F32.of_Z (-1)
         else if F32.ltb (F32.of_Z 1) cosine then F32.of_Z 1
         else cosine).

(** The thresholds in the words of the spec. 0.05 metres: the quotient
    5/100 rounded to binary32. 5 degrees, or 5 pi / 180 radians: the
    binary32 number 11712706 * 2^-27, about 0.0872664601. *)
Definition five_centimetres : float := F32.div (F32.of_Z 5) (F32.of_Z 100).
Definition five_degrees : float := S754_finite false 11712706 (-27).

(** The mantissa and the exponent of a positive finite number. *)
Definition positive_parts (x : float) : option (Z * Z) :=
  match x with
  | S754_finite false m e => Some (Z.pos m, e)
  | _ => None
  end.

(** The sum of a list of [float], from the left, starting from zero. *)
Definition float_sum (l : list float) : float := fold_left F32.add l F32.zero.

Definition int_sum (l : list Z) : Z := fold_right Z.add 0 l.

(** The averages in the words of the spec, as percentages. [count] selects
    the match count of a stage. *)
Definition unweighted_average (count : SequenceResults -> Z) (rs : list SequenceResults) : float :=
  let ratios := map (λ r, F32.div (F32.of_Z (count r)) (F32.of_Z (poseCount r))) rs in
  F32.mul (F32.div (float_sum ratios) (F32.of_Z (Z.of_nat (length rs)))) hundred.

Definition weighted_average (count : SequenceResults -> Z) (rs : list SequenceResults) : float :=
  F32.mul (F32.div (float_sum (map (λ r, F32.of_Z (count r)) rs))
                   (F32.of_Z (int_sum (map poseCount rs)))) hundred.

Definition summary_of (rs : list SequenceResults) : Summary :=
  {| relocAvg := unweighted_average validPosesAfterReloc rs;
     icpAvg := unweighted_average validPosesAfterICP rs;
     finalAvg := unweighted_average validFinalPoses rs;
     relocWeightedAvg := weighted_average validPosesAfterReloc rs;
     icpWeightedAvg := weighted_average validPosesAfterICP rs;
     finalWeightedAvg := weighted_average validFinalPoses rs |}.

(** The sequences that have at least one pose. *)
Definition with_poses (results : gmap string SequenceResults) (sequenceNames : list string)
  : list string :=
  filter (λ s, poseCount (results_at results s) ≠ 0) sequenceNames.

(** The evaluation of one sequence as the driver calls it. *)
Definition run_of (acosf : float -> float) (garbage : path -> nat -> float) (fuel : nat)
    (fs : filesystem) (opts : Options) (sequence : string) : IO SequenceResults :=
  evaluate_sequence acosf garbage fuel fs
    (sequence_gtPath opts sequence) (sequence_relocFolder opts sequence).

(** What a run of [evaluate_sequences] writes for one sequence. *)
Definition sequence_trace (acosf : float -> float) (garbage : path -> nat -> float) (fuel : nat)
    (fs : filesystem) (opts : Options) (sequence : string) : list event :=
  let run := run_of acosf garbage fuel fs opts sequence in
  Cerr (processing_message opts sequence) :: run.2 ++
  match run.1 with
  | Throw _ => [Cerr not_evaluated_message]
  | _ => []
  end.

(** A call that came back, with a value or with an exception. *)
Definition returns {A : Type} (m : IO A) : Prop :=
  match m.1 with
  | Ok _ | Throw _ => True
  | Undefined | OutOfFuel => False
  end.

(** The variables of the loop of [evaluate_sequence] when it is about to
    look at frame [i]: both generators are at [i], [i] poses have been
    counted and the results satisfy their invariant. *)
Record at_frame (gtFolder relocFolder : path) (i : Z) (st : LoopState) : Prop := {
  at_gt : gtPathGenerator st = {| m_baseDir := gtFolder; m_index := i |};
  at_reloc : relocPathGenerator st = {| m_baseDir := relocFolder; m_index := i |};
  at_count : poseCount (res st) = i;
  at_invariant : results_invariant (res st)
}.

(** The variables of the loop that a run of [evaluate_sequence] goes
    through: those before the first turn, and those after every turn that
    goes on. *)
Inductive reached (acosf : float -> float) (garbage : path -> nat -> float) (fs : filesystem)
    (gtFolder relocFolder : path) : LoopState -> Prop :=
  | reached_first :
      reached acosf garbage fs gtFolder relocFolder
        {| gtPathGenerator := SequentialPathGenerator_new gtFolder;
           relocPathGenerator := SequentialPathGenerator_new relocFolder;
           res := SequenceResults_default |}
  | reached_next (st st' : LoopState) (t : list event) :
      reached acosf garbage fs gtFolder relocFolder st ->
      evaluate_frame acosf garbage fs st = (Ok (Some st'), t) ->
      reached acosf garbage fs gtFolder relocFolder st'.

(** What the data row of frame [k] of a CSV file carries for the raw and
    the refined stage: the index of the frame, its position in the sequence,
    and per stage the outcome of the frame and the number of matches up to
    and including it. The percentages are left aside. *)
Record row_describes (r : SequenceResults) (k : nat) (row : CsvRow) : Prop := {
  row_index : FrameIdx row = Z.of_nat k;
  row_position : FramePct row = F32.div (F32.of_Z (Z.of_nat k)) (F32.of_Z (poseCount r));
  row_reloc : relocalizationResults r !! k = Some (RelocSuccess row);
  row_reloc_sum : RelocSum row = count_true (take (S k) (relocalizationResults r));
  row_icp : icpResults r !! k = Some (ICPSuccess row);
  row_icp_sum : ICPSum row = count_true (take (S k) (icpResults r))
}.

(** A CSV file as the claim wants it: every percentage is a finite number. *)
Definition percentages_defined (file : CsvFile) : Prop :=
  Forall (λ row, F32.is_finite (RelocPct row) = true /\ F32.is_finite (ICPPct row) = true)
         (csv_rows file).

(** The number a string of decimal digits stands for; zeros in front do
    not change it. *)
Definition number_of (s : string) : option N :=
  N.of_uint <$> NilEmpty.uint_of_string s.

(** The number a token stands for. *)
Definition token_value (t : token) : float :=
  match t with
  | Number x => x
  | Malformed stored => stored
  end.

(** The numbers at the start of a text, up to the first token that is not
    a number. *)
Fixpoint leading_numbers (content : list token) : list float :=
  match content with
  | Number x :: rest => x :: leading_numbers rest
  | _ => []
  end.

(** What the conversion that fails assigns: the stored value when the text
    goes on with a token that is not a number, nothing when the text ends. *)
Fixpoint stored_at_failure (content : list token) : list float :=
  match content with
  | Number _ :: rest => stored_at_failure rest
  | Malformed stored :: _ => [stored]
  | [] => []
  end.

(** The coefficients sixteen extractions assign, in the order of the
    extractions. *)
Definition assigned (content : list token) : list float :=
  take 16 (leading_numbers content ++ stored_at_failure content).

(** The decision on a candidate file of a frame: the pose matcher's on the
    two matrices when both files are regular files, no match otherwise. *)
Definition frame_decision (acosf : float -> float) (garbage : path -> nat -> float)
    (fs : filesystem) (gtFile candidate : path) : bool :=
  match fs !! gtFile, fs !! candidate with
  | Some (Regular gt), Some (Regular text) =>
      pose_matches acosf (parsed (garbage gtFile) gt) (parsed (garbage candidate) text)
  | _, _ => false
  end.

(** The decisions on the first [n] frames, in frame order, for the kind of
    candidate file that [candidate_path] names. *)
Definition decisions (acosf : float -> float) (garbage : path -> nat -> float) (fs : filesystem)
    (gtFolder : path) (candidate_path : Z -> path) (n : nat) : list bool :=
  map (λ i : nat, frame_decision acosf garbage fs
                    (gt_path gtFolder (Z.of_nat i)) (candidate_path (Z.of_nat i)))
      (seq 0 n).

(** An exception is the failure of a status query, the last thing done. *)
Definition status_failure (fs : filesystem) (e : exn) (t : list event) : Prop :=
  exists p, e = filesystem_error p /\ fs !! p = Some Inaccessible /\ last t = Some (Status p).

(** A [float] that is not negative: a zero, a finite number or an infinity
    with its sign bit clear, or a NaN. *)
Definition nonneg_or_nan (x : float) : Prop :=
  match x with
  | S754_zero s | S754_infinity s | S754_finite s _ _ => s = false
  | S754_nan => True
  end.

(** The summary of a run in which no sequence has a pose. *)
Definition Summary_nan : Summary :=
  {| relocAvg := F32.nan; icpAvg := F32.nan; finalAvg := F32.nan;
     relocWeightedAvg := F32.nan; icpWeightedAvg := F32.nan; finalWeightedAvg := F32.nan |}.

(** The name of the CSV file of a sequence. *)
Definition csv_file_name (stem sequence : string) : string :=
  stem +:+ "_" +:+ sequence +:+ ".csv".

(* ===================================================================== *)
(** ** The discovery of the sequences *)
(* ===================================================================== *)

(** The directories of the file system: for each directory the names of its
    entries, in the order in which a directory iterator yields them. A
    directory is a node that is not a regular file and has such a list. *)
Abbreviation directories := (gmap string (list string)).

(** [fs::is_directory(p)]: like [fs::is_regular], it throws when the status
    of the path cannot be determined. *)
Definition is_directory (dirs : directories) (fs : filesystem) (p : path) : IO bool :=
  match fs !! p with
  | Some Inaccessible => (Throw (filesystem_error p), [Status p])
  | Some NotRegular => (Ok (bool_decide (is_Some (dirs !! p))), [Status p])
  | Some (Regular _) | None => (Ok false, [Status p])
  end.

(** [fs::directory_iterator it(p)] and its traversal: the names of the
    entries of the directory; the constructor throws when the path is not a
    directory that can be opened. *)
Definition directory_entries (dirs : directories) (fs : filesystem) (p : path)
  : IO (list string) :=
  match fs !! p, dirs !! p with
  | Some NotRegular, Some entries => (Ok entries, [Read p])
  | _, _ => (Throw (filesystem_error p), [Read p])
  end.

Fixpoint has_slash (s : string) : bool :=
  match s with
  | EmptyString => false
  | String c rest => Ascii.eqb c "/" || has_slash rest
  end.

(** [p.filename()]: what follows the last separator of the path. *)
Fixpoint filename (p : path) : string :=
  match p with
  | EmptyString => EmptyString
  | String c rest =>
      if has_slash rest then filename rest
      else if Ascii.eqb c "/" then rest
      else p
  end.

Section Discovery.

Variable dirs : directories.
Variable fs : filesystem.

(** The loop over the entries of the dataset folder, from the entry at hand
    on; [sequences] holds the names stored so far. The second operand of [&&]
    is evaluated only when the first holds. *)
Fixpoint collect_sequences (dataset_path : path) (entries : list string)
    (sequences : list string) : IO (list string) :=
  match entries with
  | [] => mret sequences
  | name :: rest =>
      let p := path_append dataset_path name in
      let train_path := path_append p trainFolderName in
      let test_path := path_append p testFolderName in
      (* If the current folder has both a train and test subfolder, we store
         its name as a valid sequence. *)
      has_train ← is_directory dirs fs train_path;
      both ← (if has_train : bool then is_directory dirs fs test_path else mret false);
      collect_sequences dataset_path rest
        (if both : bool then sequences ++ [filename p] else sequences)
  end.

(** [std::sort] on strings orders them by [operator<], character by
    character; the sorted sequence of a list is unique, so that any sorting
    function stands for it. *)
Definition find_sequence_names (dataset_path : path) : IO (list string) :=
  (* Iterate over every subfolder of the dataset. *)
  entries ← directory_entries dirs fs dataset_path;
  sequences ← collect_sequences dataset_path entries [];
  (* Sort sequence names because the directory iterator does not ensure ordering *)
  mret (merge_sort String.le sequences).

End Discovery.

(** The whole program once the options are parsed: the discovery is not
    inside any [try] block. *)
Definition relocperf (acosf : float -> float) (garbage : path -> nat -> float) (fuel : nat)
    (dirs : directories) (fs : filesystem) (opts : Options) : IO Report :=
  sequenceNames ← find_sequence_names dirs fs (datasetFolder opts);
  main acosf garbage fuel fs opts sequenceNames.

(** A path that names a directory. *)
Definition directory (dirs : directories) (fs : filesystem) (p : path) : bool :=
  match fs !! p with
  | Some NotRegular => bool_decide (is_Some (dirs !! p))
  | _ => false
  end.

(** An entry of the dataset folder that is a sequence: it has both a train
    and a test subfolder. *)
Definition is_sequence (dirs : directories) (fs : filesystem) (dataset_path : path)
    (name : string) : bool :=
  directory dirs fs (path_append (path_append dataset_path name) trainFolderName) &&
  directory dirs fs (path_append (path_append dataset_path name) testFolderName).

(** An entry of the dataset folder whose subfolders can be examined: the
    status of its train subfolder is available, and so is the status of its
    test subfolder when the train subfolder is a directory. *)
Definition examinable (dirs : directories) (fs : filesystem) (dataset_path : path)
    (name : string) : Prop :=
  fs !! path_append (path_append dataset_path name) trainFolderName ≠ Some Inaccessible /\
  (directory dirs fs (path_append (path_append dataset_path name) trainFolderName) = true ->
   fs !! path_append (path_append dataset_path name) testFolderName ≠ Some Inaccessible).


(** A trace in which nothing is written to the standard error stream. *)
Definition silent (t : list event) : Prop :=
  Forall (λ ev, is_Some (event_path ev)) t.

(** An outcome that is a [filesystem_error]. *)
Definition filesystem_failure {A : Type} (o : outcome A) : Prop :=
  match o with
  | Throw (filesystem_error _) => True
  | _ => False
  end.


(** The files a trace opens and reads, in the order of the reads. *)
Definition reads (t : list event) : list path :=
  omap (λ e, match e with Read p => Some p | _ => None end) t.

(* ===================================================================== *)
(** ** Inputs of the examples *)
(* ===================================================================== *)

(** The identity pose, and the identity rotation moved along the first axis. *)
Definition identity_pose : Matrix4f :=
  map F32.of_Z [1; 0; 0; 0;  0; 1; 0; 0;  0; 0; 1; 0;  0; 0; 0; 1].

Definition shifted_pose (x : float) : Matrix4f :=
  [ F32.of_Z 1; F32.zero; F32.zero; x;
    F32.zero; F32.of_Z 1; F32.zero; F32.zero;
    F32.zero; F32.zero; F32.of_Z 1; F32.zero;
    F32.zero; F32.zero; F32.zero; F32.of_Z 1 ].

(** An inverse cosine that is right at 1, where the angle is 0. *)
Definition acosf_at_one (c : float) : float :=
  if SFeqb c one then F32.zero else F32.nan.

(** A quarter turn about the third axis, and the turn taken further by an
    angle of cosine [c] and sine [s], moved by [x] along the first axis. *)
Definition quarter_turn : Matrix4f :=
  map F32.of_Z [0; -1; 0; 0;  1; 0; 0; 0;  0; 0; 1; 0;  0; 0; 0; 1].

Definition turned_further (c s x : float) : Matrix4f :=
  [ SFopp s; SFopp c; F32.zero; x;
    c; SFopp s; F32.zero; F32.zero;
    F32.zero; F32.zero; F32.of_Z 1; F32.zero;
    F32.zero; F32.zero; F32.zero; F32.of_Z 1 ].

(** The two binary32 cosines with an even mantissa next to the cosine of 5
    degrees (0.99619470 and 0.99619460), and the sines that go with them. *)
Definition cosine_within : float := S754_finite false 16713374 (-24).
Definition sine_within : float := S754_finite false 11697812 (-27).
Definition cosine_beyond : float := S754_finite false 16713372 (-24).
Definition sine_beyond : float := S754_finite false 11697995 (-27).

(** An inverse cosine given at the cosines above, rounded to nearest:
    0.0872662067 and 0.0872675776 radians. *)
Definition acosf_table (c : float) : float :=
  if SFeqb c one then F32.zero
  else if SFeqb c cosine_within then S754_finite false 11712672 (-27)
  else if SFeqb c cosine_beyond then S754_finite false 11712856 (-27)
  else F32.nan.

(** A pose file whose last number is not a number. *)
Definition corrupt_content : list token :=
  map Number (take 15 identity_pose) ++ [Malformed F32.zero].

Definition no_garbage (k : nat) : float := F32.nan.

Definition no_garbage_anywhere (p : path) : nat -> float := no_garbage.

(** Two frames of ground truth, the first with a matching relocalised
    pose, the second without result files. *)
Definition two_frames : filesystem :=
  {[ "gt/frame-000000.pose.txt" := Regular (map Number identity_pose);
     "gt/frame-000001.pose.txt" := Regular (map Number identity_pose);
     "reloc/pose-000000.reloc.txt" := Regular (map Number identity_pose) ]}.

(** Two frames of ground truth ten metres apart, whose refined poses are
    empty files, and a memory in which the uninitialised matrix still holds
    the ground-truth pose of the frame when the refined pose is read. *)
Definition empty_icp_files : filesystem :=
  {[ "gt/frame-000000.pose.txt" := Regular (map Number identity_pose);
     "gt/frame-000001.pose.txt" := Regular (map Number (shifted_pose (F32.of_Z 10)));
     "reloc/pose-000000.icp.txt" := Regular [];
     "reloc/pose-000001.icp.txt" := Regular [] ]}.

Definition stale_ground_truth (p : path) (k : nat) : float :=
  if String.eqb p "reloc/pose-000000.icp.txt" then nth k identity_pose F32.nan
  else if String.eqb p "reloc/pose-000001.icp.txt"
       then nth k (shifted_pose (F32.of_Z 10)) F32.nan
       else F32.nan.

(** A dataset with two sequences: the folder of the first cannot be
    examined, the second has one frame. *)
Definition two_sequences : filesystem :=
  {[ "data/bad/test/frame-000000.pose.txt" := Inaccessible;
     "data/good/test/frame-000000.pose.txt" := Regular (map Number identity_pose);
     "out/tag_good/pose-000000.reloc.txt" := Regular (map Number identity_pose) ]}.

Definition example_options : Options :=
  {| datasetFolder := "data"; relocBaseFolder := "out"; relocTag := "tag";
     useValidation := false; onlineEvaluation := true |}.

(** A sequence of [n] poses of which the first [k] match at every stage. *)
Definition sequence_with (n k : nat) : SequenceResults :=
  let flags := replicate k true ++ replicate (n - k) false in
  {| poseCount := Z.of_nat n;
     validPosesAfterReloc := Z.of_nat k;
     validPosesAfterICP := Z.of_nat k;
     validFinalPoses := Z.of_nat k;
     relocalizationResults := flags; icpResults := flags; finalResults := flags |}.

(** Ten poses at 100% and ninety poses at 0%. *)
Definition short_and_long : gmap string SequenceResults :=
  {[ "short" := sequence_with 10 10; "long" := sequence_with 90 0 ]}.

(** One sequence of ten matching poses; the sequence "empty" has no entry. *)
Definition one_full : gmap string SequenceResults :=
  {[ "full" := sequence_with 10 10 ]}.

(** One sequence of three poses of which the first two match. *)
Definition two_of_three : gmap string SequenceResults :=
  {[ "office" := sequence_with 3 2 ]}.


(** The result of the sequence "good" of [two_sequences]: one pose that
    matches at the first stage. *)
Definition good_result : SequenceResults :=
  {| poseCount := 1; validPosesAfterReloc := 1; validPosesAfterICP := 0;
     validFinalPoses := 0; relocalizationResults := [true];
     icpResults := [false]; finalResults := [false] |}.

Definition good_only : gmap string SequenceResults := {[ "good" := good_result ]}.

(** One sequence of one matching pose, and the data row of its CSV file. *)
Definition one_pose : gmap string SequenceResults := {[ "s" := sequence_with 1 1 ]}.

Definition first_row : CsvRow :=
  {| FrameIdx := 0; FramePct := F32.zero; RelocSuccess := true; RelocSum := 1;
     RelocPct := S754_infinity false; ICPSuccess := true; ICPSum := 1;
     ICPPct := S754_infinity false |}.

(** A dataset folder with three entries, two of which are sequences. *)
Definition dataset_nodes : filesystem :=
  {[ "data" := NotRegular;
     "data/office" := NotRegular; "data/office/train" := NotRegular;
     "data/office/test" := NotRegular;
     "data/kitchen" := NotRegular; "data/kitchen/train" := NotRegular;
     "data/kitchen/test" := NotRegular;
     "data/notes" := NotRegular; "data/notes/train" := NotRegular ]}.

Definition dataset_directories (entries : list string) : directories :=
  {[ "data" := entries;
     "data/office" := ["train"; "test"]; "data/office/train" := [];
     "data/office/test" := [];
     "data/kitchen" := ["test"; "train"]; "data/kitchen/train" := [];
     "data/kitchen/test" := [];
     "data/notes" := ["train"]; "data/notes/train" := [] ]}.


(** The same dataset with one evaluated frame in the sequence "office", and
    what the program leaves behind when it is run on it. *)
Definition dataset_with_poses : filesystem :=
  <["data/office/test/frame-000000.pose.txt" := Regular (map Number identity_pose)]>
    (<["out/tag_office/pose-000000.reloc.txt" := Regular (map Number identity_pose)]>
       dataset_nodes).

Definition dataset_run : IO Report :=
  relocperf acosf_at_one no_garbage_anywhere 3 (dataset_directories ["office"; "notes"; "kitchen"])
    dataset_with_poses example_options.

Definition dataset_report : Report :=
  Eval vm_compute in
    match dataset_run.1 with
    | Ok report => report
    | _ => {| report_table := []; report_summary := Summary_nan; report_csv := [] |}
    end.

Definition dataset_trace : list event := Eval vm_compute in dataset_run.2.

(* ===================================================================== *)
(** ** binary32 facts *)
(* ===================================================================== *)

Lemma F32_mul_comm (x y : float) : F32.mul x y = F32.mul y x.
Proof.
  unfold F32.mul.
  destruct x as [sx|sx| |sx mx ex], y as [sy|sy| |sy my ey]; simpl;
    rewrite ?(xorb_comm sx sy); try reflexivity.
  by rewrite (Pos.mul_comm mx my), (Z.add_comm ex ey).
Qed.

Lemma F32_add_nan_l (x : float) : F32.add F32.nan x = F32.nan.
Proof. reflexivity. Qed.

Lemma F32_add_nan_r (x : float) : F32.add x F32.nan = F32.nan.
Proof. by destruct x. Qed.

Lemma F32_div_nan_l (x : float) : F32.div F32.nan x = F32.nan.
Proof. reflexivity. Qed.

Lemma F32_mul_nan_l (x : float) : F32.mul F32.nan x = F32.nan.
Proof. reflexivity. Qed.

Lemma F32_leb_nan_l (x : float) : F32.leb F32.nan x = false.
Proof. reflexivity. Qed.

Lemma F32_leb_compare_eq (x y : float) :
  SFcompare x y = Some Eq -> F32.leb x y = true.
Proof. unfold F32.leb, SFleb. by intros ->. Qed.

(** The literal [0.05f] is the quotient 5/100 rounded to nearest. *)
Lemma translationMaxError_value :
  translationMaxError = F32.div (F32.of_Z 5) (F32.of_Z 100).
Proof. reflexivity. Qed.

(** [angleMaxError] is the binary32 number 11712706 * 2^-27, about
    0.0872664601 radians. *)
Lemma angleMaxError_value : angleMaxError = S754_finite false 11712706 (-27).
Proof. vm_compute. reflexivity. Qed.

(* ===================================================================== *)
(** ** The pose matcher: statements *)
(* ===================================================================== *)

Lemma dot3_comm (a0 a1 a2 b0 b1 b2 : float) :
  dot3 a0 a1 a2 b0 b1 b2 = dot3 b0 b1 b2 a0 a1 a2.
Proof.
  unfold dot3.
  by rewrite (F32_mul_comm a0 b0), (F32_mul_comm a1 b1), (F32_mul_comm a2 b2).
Qed.

(** The product of the second rotation with the transpose of the first is,
    coefficient for coefficient, the transpose of the product taken the
    other way round. *)
Lemma mmul_transpose_swap (r1 r2 : Matrix3f) :
  mmul r2 (transpose r1) = transpose (mmul r1 (transpose r2)).
Proof.
  destruct r1, r2. unfold mmul, transpose. simpl.
  f_equal; apply dot3_comm.
Qed.

Lemma trace_transpose (m : Matrix3f) : trace (transpose m) = trace m.
Proof. by destruct m. Qed.

Lemma pose_matches_unfold (acosf : float -> float) (gtPose testPose : Matrix4f) :
  pose_matches acosf gtPose testPose =
  F32.leb (translation_error gtPose testPose) translationMaxError &&
  F32.leb (rotation_error acosf gtPose testPose) angleMaxError.
Proof. reflexivity. Qed.

(** [five_degrees] is the binary32 number nearest to 5 pi / 180: with
    3.141592653 < pi < 3.141592654, the quotient pi / 36 lies strictly
    between the two midpoints around it. *)
Remark five_degrees_nearest :
  exists m, positive_parts five_degrees = Some (m, -27) /\
    (2 * m - 1) * 36 * 10 ^ 9 < 3141592653 * 2 ^ 28 /\
    3141592654 * 2 ^ 28 < (2 * m + 1) * 36 * 10 ^ 9.
Proof. exists 11712706. split; [reflexivity|]. split; reflexivity. Qed.

(** The thresholds of the code are those of the spec. *)
Lemma thresholds_of_the_spec :
  translationMaxError = five_centimetres /\ angleMaxError = five_degrees.
Proof. split; [reflexivity|]. vm_compute. reflexivity. Qed.

(** The rotation part of the matcher computes the rotation error of the
    spec: the blocks, the transpose, the product, the trace and the angle of
    the code come to the formula on the coefficients of the two poses. *)
Lemma angular_separation_rotation_error (acosf : float -> float)
    (gtPose testPose : Matrix4f) :
  angular_separation acosf (block33 gtPose) (block33 testPose)
    = rotation_error acosf gtPose testPose.
Proof.
  unfold angular_separation, angle_axis_angle, clamp_cos, trace, mmul, transpose,
    block33, dot3, rotation_error, relative_rotation_diagonal, one, two, minus_one.
  reflexivity.
Qed.

(** The translation part of the matcher computes the translation error of
    the spec. *)
Lemma norm_translation_error (gtPose testPose : Matrix4f) :
  norm (vsub (block31 gtPose) (block31 testPose)) = translation_error gtPose testPose.
Proof.
  unfold norm, squaredNorm, vsub, block31, dot3, translation_error. reflexivity.
Qed.

(** C1. The pose matcher answers true exactly when the translation error
    (the Euclidean norm of the difference of the translation vectors) is at
    most 0.05 and the rotation error (the angle of the relative rotation) is
    at most 5 degrees, both computed in binary32 and both written on the
    coefficients of the two poses. The comparisons are not strict: a
    translation error equal to the threshold matches when the rotation error
    is within its threshold, and so does a rotation error equal to its
    threshold. An error that is not a number never matches. *)
Theorem pose_matches_criterion (acosf : float -> float) (gtPose testPose : Matrix4f) :
  (pose_matches acosf gtPose testPose = true <->
     F32.leb (translation_error gtPose testPose) five_centimetres = true /\
     F32.leb (rotation_error acosf gtPose testPose) five_degrees = true) /\
  (SFcompare (translation_error gtPose testPose) five_centimetres = Some Eq ->
     F32.leb (rotation_error acosf gtPose testPose) five_degrees = true ->
     pose_matches acosf gtPose testPose = true) /\
  (F32.leb (translation_error gtPose testPose) five_centimetres = true ->
     SFcompare (rotation_error acosf gtPose testPose) five_degrees = Some Eq ->
     pose_matches acosf gtPose testPose = true) /\
  (translation_error gtPose testPose = F32.nan \/
   rotation_error acosf gtPose testPose = F32.nan ->
     pose_matches acosf gtPose testPose = false).
Proof.
  destruct thresholds_of_the_spec as [Ht Hr].
  unfold pose_matches. cbv zeta.
  rewrite norm_translation_error, angular_separation_rotation_error, Ht, Hr, andb_true_iff.
  split; [reflexivity|]. split; [|split].
  - intros Hte Hre. split; [by apply F32_leb_compare_eq | done].
  - intros Hte Hre. split; [done | by apply F32_leb_compare_eq].
  - intros [-> | ->].
    + reflexivity.
    + rewrite F32_leb_nan_l. apply andb_false_r.
Qed.

Lemma pose_matches_criterion_witness :
  pose_matches acosf_table quarter_turn
    (turned_further cosine_within sine_within five_centimetres) = true /\
  pose_matches acosf_table quarter_turn
    (turned_further cosine_beyond sine_beyond F32.zero) = false.
Proof.
  split.
  - apply (proj1 (proj2
      (pose_matches_criterion acosf_table quarter_turn
         (turned_further cosine_within sine_within five_centimetres)))).
    + vm_compute. reflexivity.
    + vm_compute. reflexivity.
  - apply not_true_is_false. intros H.
    apply (proj1 (proj1
      (pose_matches_criterion acosf_table quarter_turn
         (turned_further cosine_beyond sine_beyond F32.zero)))) in H.
    destruct H as [_ H]. vm_compute in H. discriminate H.
Defined.

(** C7. The angular separation is symmetric: for all rotation matrices (and
    all 3x3 matrices of binary32 numbers), the angle from the first to the
    second equals the angle from the second to the first. *)
Theorem angular_separation_symmetric (acosf : float -> float) (r1 r2 : Matrix3f) :
  angular_separation acosf r1 r2 = angular_separation acosf r2 r1.
Proof.
  unfold angular_separation, angle_axis_angle.
  by rewrite (mmul_transpose_swap r1 r2), trace_transpose.
Qed.

(* ===================================================================== *)
(** ** Calls and their outcomes: inversion *)
(* ===================================================================== *)

Lemma bind_Ok {A B : Type} (m : IO A) (f : A -> IO B) (b : B) (t : list event) :
  (m ≫= f) = (Ok b, t) ->
  exists a t1 t2, m = (Ok a, t1) /\ f a = (Ok b, t2) /\ t = t1 ++ t2.
Proof.
  unfold mbind, io_bind. destruct m as [[a| | |] t1]; try discriminate.
  destruct (f a) as [r t2] eqn:Hf. intros [= -> <-]. by exists a, t1, t2.
Qed.

Lemma bind_eq_Ok {A B : Type} (m : IO A) (f : A -> IO B) (a : A) (t1 : list event) :
  m = (Ok a, t1) -> (m ≫= f) = ((f a).1, t1 ++ (f a).2).
Proof. intros ->. unfold mbind, io_bind. by destruct (f a). Qed.

Lemma bind_eq_Throw {A B : Type} (m : IO A) (f : A -> IO B) (e : exn) (t : list event) :
  m = (Throw e, t) -> (m ≫= f) = (Throw e, t).
Proof. by intros ->. Qed.

Lemma defined_Ok {A : Type} (o : option A) (a : A) (t : list event) :
  defined o = (Ok a, t) -> o = Some a /\ t = [].
Proof. destruct o; simpl; [by intros [= -> <-] | discriminate]. Qed.

Lemma ret_Ok {A : Type} (a b : A) (t : list event) :
  (mret a : IO A) = (Ok b, t) -> a = b /\ t = [].
Proof. by intros [= -> <-]. Qed.

(** The four cases of [fs::is_regular]. *)
Lemma is_regular_cases (fs : filesystem) (p : path) :
  is_regular fs p =
    match fs !! p with
    | Some (Regular _) => (Ok true, [Status p])
    | Some Inaccessible => (Throw (filesystem_error p), [Status p])
    | _ => (Ok false, [Status p])
    end.
Proof. unfold is_regular. by destruct (fs !! p) as [[]|]. Qed.

Lemma is_regular_true (fs : filesystem) (p : path) (t : list event) :
  is_regular fs p = (Ok true, t) -> exists content, fs !! p = Some (Regular content).
Proof.
  rewrite is_regular_cases. destruct (fs !! p) as [[content| |]|]; try discriminate.
  by exists content.
Qed.

(** On a regular file the parser returns what the text yields; it does not
    look at whether the text was well formed. *)
Lemma read_pose_from_file_regular (garbage : nat -> float) (fs : filesystem) (p : path)
    (content : list token) :
  fs !! p = Some (Regular content) ->
  read_pose_from_file garbage fs p = (Ok (parsed garbage content), [Status p; Read p]).
Proof.
  intros Hp. unfold read_pose_from_file, parsed, open.
  rewrite (bind_eq_Ok _ _ true [Status p]) by (by rewrite is_regular_cases, Hp).
  simpl. by rewrite Hp.
Qed.

Section ParserFacts.

Variable acosf : float -> float.
Variable garbage : path -> nat -> float.

Lemma pose_file_matches_regular (fs : filesystem) (gtPose : Matrix4f) (p : path)
    (content : list token) :
  fs !! p = Some (Regular content) ->
  pose_file_matches acosf garbage fs gtPose p =
    (Ok (pose_matches acosf gtPose (parsed (garbage p) content)),
     [Status p; Status p; Read p]).
Proof.
  intros Hp. unfold pose_file_matches.
  rewrite (bind_eq_Ok _ _ true [Status p]) by (by rewrite is_regular_cases, Hp).
  simpl. by rewrite (read_pose_from_file_regular _ _ _ _ Hp).
Qed.

Lemma pose_file_matches_missing (fs : filesystem) (gtPose : Matrix4f) (p : path) :
  missing fs p ->
  pose_file_matches acosf garbage fs gtPose p = (Ok false, [Status p]).
Proof.
  intros Hp. unfold pose_file_matches.
  rewrite (bind_eq_Ok _ _ false [Status p]); [done|].
  rewrite is_regular_cases. by destruct Hp as [-> | ->].
Qed.

Lemma pose_file_matches_inaccessible (fs : filesystem) (gtPose : Matrix4f) (p : path) :
  fs !! p = Some Inaccessible ->
  pose_file_matches acosf garbage fs gtPose p = (Throw (filesystem_error p), [Status p]).
Proof.
  intros Hp. unfold pose_file_matches.
  apply bind_eq_Throw. by rewrite is_regular_cases, Hp.
Qed.

(** Every outcome of the file-aware matcher. *)
Lemma pose_file_matches_cases (fs : filesystem) (gtPose : Matrix4f) (p : path) :
  (fs !! p = Some Inaccessible /\
   pose_file_matches acosf garbage fs gtPose p = (Throw (filesystem_error p), [Status p])) \/
  (fs !! p ≠ Some Inaccessible /\
   exists b t, pose_file_matches acosf garbage fs gtPose p = (Ok b, t) /\
               Forall (λ e, event_path e = Some p) t).
Proof.
  destruct (fs !! p) as [[content| |]|] eqn:Hp.
  - right. split; [done|]. eexists _, _. split.
    + by apply pose_file_matches_regular.
    + by repeat constructor.
  - right. split; [done|]. exists false, [Status p]. split.
    + apply pose_file_matches_missing. by right.
    + by repeat constructor.
  - left. split; [done|]. by apply pose_file_matches_inaccessible.
  - right. split; [done|]. exists false, [Status p]. split.
    + apply pose_file_matches_missing. by left.
    + by repeat constructor.
Qed.

End ParserFacts.

(** C3, as amended. For every ground-truth pose and candidate path, the
    file-aware matcher returns false, without an error, when the candidate is
    not a regular file; when the candidate is a regular file it always
    returns a match decision, the one the pose matcher takes on the matrix
    assembled from the text, whether the text is well formed or not: the
    parser raises nothing for malformed numbers. *)
Theorem pose_file_matches_decides (acosf : float -> float) (garbage : path -> nat -> float)
    (fs : filesystem) (gtPose : Matrix4f) (poseFile : path) :
  (missing fs poseFile ->
     pose_file_matches acosf garbage fs gtPose poseFile = (Ok false, [Status poseFile])) /\
  (forall content, fs !! poseFile = Some (Regular content) ->
     pose_file_matches acosf garbage fs gtPose poseFile =
       (Ok (pose_matches acosf gtPose (parsed (garbage poseFile) content)),
        [Status poseFile; Status poseFile; Read poseFile])).
Proof.
  split.
  - apply pose_file_matches_missing.
  - intros content. apply pose_file_matches_regular.
Qed.

Lemma pose_file_matches_decides_witness :
  pose_file_matches acosf_at_one no_garbage_anywhere ∅ identity_pose "pose-000000.reloc.txt"
    = (Ok false, [Status "pose-000000.reloc.txt"]) /\
  pose_file_matches acosf_at_one no_garbage_anywhere
      {[ "pose-000000.reloc.txt" := Regular corrupt_content ]}
      identity_pose "pose-000000.reloc.txt"
    = (Ok (pose_matches acosf_at_one identity_pose (parsed no_garbage corrupt_content)),
       [Status "pose-000000.reloc.txt"; Status "pose-000000.reloc.txt";
        Read "pose-000000.reloc.txt"]).
Proof.
  split.
  - apply (proj1 (pose_file_matches_decides acosf_at_one no_garbage_anywhere ∅ identity_pose
                    "pose-000000.reloc.txt")).
    left. reflexivity.
  - apply (proj2 (pose_file_matches_decides acosf_at_one no_garbage_anywhere
                    {[ "pose-000000.reloc.txt" := Regular corrupt_content ]}
                    identity_pose "pose-000000.reloc.txt")).
    vm_compute. reflexivity.
Defined.

(** The claim C3 as stated fails: a candidate file that exists and whose
    text is malformed yields a match decision (here: a match), and no
    failure reaches the caller. *)
Lemma pose_file_matches_malformed_counterexample :
  well_formed corrupt_content = false /\
  (pose_file_matches acosf_at_one no_garbage_anywhere
     {[ "pose-000000.reloc.txt" := Regular corrupt_content ]}
     identity_pose "pose-000000.reloc.txt").1 = Ok true /\
  ~ (exists e t,
       pose_file_matches acosf_at_one no_garbage_anywhere
         {[ "pose-000000.reloc.txt" := Regular corrupt_content ]}
         identity_pose "pose-000000.reloc.txt" = (Throw e, t)).
Proof.
  split; [reflexivity|]. split; [vm_compute; reflexivity|].
  intros (e & t & H). vm_compute in H. discriminate H.
Qed.

(** C10. Inside the file-aware matcher the missing-file branch of the parser
    is not reachable: whenever the check of the matcher found a regular file,
    the parser, on the same file system, finds it too and returns a matrix;
    and the matcher never ends in the parser's "File not found" error (nor in
    any other [std::runtime_error] raised by the program itself). *)
Theorem pose_file_matches_never_file_not_found (acosf : float -> float)
    (garbage : path -> nat -> float) (fs : filesystem) (gtPose : Matrix4f) (poseFile : path) :
  (forall t, is_regular fs poseFile = (Ok true, t) ->
     exists m, read_pose_from_file (garbage poseFile) fs poseFile
               = (Ok m, [Status poseFile; Read poseFile])) /\
  (forall what t,
     pose_file_matches acosf garbage fs gtPose poseFile ≠ (Throw (runtime_error what), t)).
Proof.
  split.
  - intros t [content Hp]%is_regular_true.
    exists (parsed (garbage poseFile) content). by apply read_pose_from_file_regular.
  - intros what t.
    destruct (pose_file_matches_cases acosf garbage fs gtPose poseFile)
      as [[_ ->] | [_ (b & t' & -> & _)]]; discriminate.
Qed.

Lemma pose_file_matches_never_file_not_found_witness :
  exists m, read_pose_from_file no_garbage
              {[ "pose-000000.icp.txt" := Regular (map Number identity_pose) ]}
              "pose-000000.icp.txt"
            = (Ok m, [Status "pose-000000.icp.txt"; Read "pose-000000.icp.txt"]).
Proof.
  apply (proj1 (pose_file_matches_never_file_not_found acosf_at_one no_garbage_anywhere
                  {[ "pose-000000.icp.txt" := Regular (map Number identity_pose) ]}
                  identity_pose "pose-000000.icp.txt")
               [Status "pose-000000.icp.txt"]).
  vm_compute. reflexivity.
Defined.

(* ===================================================================== *)
(** ** The sequence evaluator: one turn of the loop *)
(* ===================================================================== *)

Lemma int_add_Some (x y z : Z) :
  int_add x y = Some z -> z = x + y /\ INT_MIN <= x + y <= INT_MAX.
Proof.
  unfold int_add, in_int_range. destruct (_ && _) eqn:H; [|discriminate].
  intros [= <-]. apply andb_true_iff in H as [?%Z.leb_le ?%Z.leb_le]. done.
Qed.

Lemma int_add_in_range (x y : Z) :
  INT_MIN <= x + y <= INT_MAX -> int_add x y = Some (x + y).
Proof.
  intros [H1 H2]. unfold int_add, in_int_range.
  apply Z.leb_le in H1, H2. by rewrite H1, H2.
Qed.

Lemma int_of_bool_bounds (b : bool) : 0 <= int_of_bool b <= 1.
Proof. destruct b; simpl; lia. Qed.

Lemma count_true_app (l1 l2 : list bool) :
  count_true (l1 ++ l2) = count_true l1 + count_true l2.
Proof. induction l1 as [|b l1 IH]; simpl; [done | rewrite IH; lia]. Qed.

Lemma count_true_bounds (l : list bool) : 0 <= count_true l <= Z.of_nat (length l).
Proof.
  induction l as [|b l IH]; simpl; [lia|].
  pose proof (int_of_bool_bounds b). lia.
Qed.

Lemma results_invariant_default : results_invariant SequenceResults_default.
Proof. by constructor. Qed.

(** The results after a turn that appended [b1], [b2] and [b3]. *)
Lemma results_invariant_step (r : SequenceResults) (b1 b2 b3 : bool) :
  results_invariant r ->
  results_invariant
    {| poseCount := poseCount r + 1;
       validPosesAfterReloc := validPosesAfterReloc r + int_of_bool b1;
       validPosesAfterICP := validPosesAfterICP r + int_of_bool b2;
       validFinalPoses := validFinalPoses r + int_of_bool b3;
       relocalizationResults := relocalizationResults r ++ [b1];
       icpResults := icpResults r ++ [b2];
       finalResults := finalResults r ++ [b3] |}.
Proof.
  intros [H1 H2 H3 H4 H5 H6].
  constructor; simpl; rewrite ?length_app, ?count_true_app; simpl; lia.
Qed.

Section EvaluatorFacts.

Variable acosf : float -> float.
Variable garbage : path -> nat -> float.

(** A turn that goes on has counted one more pose, appended one entry to
    each sequence and added that entry to its counter; both generators
    moved to the next index. *)
Lemma evaluate_frame_continue (fs : filesystem) (st st' : LoopState) (t : list event) :
  evaluate_frame acosf garbage fs st = (Ok (Some st'), t) ->
  exists b1 b2 b3,
    res st' =
      {| poseCount := poseCount (res st) + 1;
         validPosesAfterReloc := validPosesAfterReloc (res st) + int_of_bool b1;
         validPosesAfterICP := validPosesAfterICP (res st) + int_of_bool b2;
         validFinalPoses := validFinalPoses (res st) + int_of_bool b3;
         relocalizationResults := relocalizationResults (res st) ++ [b1];
         icpResults := icpResults (res st) ++ [b2];
         finalResults := finalResults (res st) ++ [b3] |} /\
    gtPathGenerator st' =
      {| m_baseDir := m_baseDir (gtPathGenerator st);
         m_index := m_index (gtPathGenerator st) + 1 |} /\
    relocPathGenerator st' =
      {| m_baseDir := m_baseDir (relocPathGenerator st);
         m_index := m_index (relocPathGenerator st) + 1 |} /\
    poseCount (res st) + 1 <= INT_MAX.
Proof.
  unfold evaluate_frame. intros H.
  apply bind_Ok in H as (regular & t1 & t2 & _ & H0 & _).
  destruct regular; simpl in H0; [|by apply ret_Ok in H0 as [? _]].
  apply bind_Ok in H0 as (gtPose & ? & ? & _ & H1 & _).
  apply bind_Ok in H1 as (b1 & ? & ? & _ & H2 & _).
  apply bind_Ok in H2 as (b2 & ? & ? & _ & H3 & _).
  apply bind_Ok in H3 as (b3 & ? & ? & _ & H4 & _).
  apply bind_Ok in H4 as (n1 & ? & ? & [[-> ?]%int_add_Some _]%defined_Ok & H5 & _).
  apply bind_Ok in H5 as (n2 & ? & ? & [[-> ?]%int_add_Some _]%defined_Ok & H6 & _).
  apply bind_Ok in H6 as (n3 & ? & ? & [[-> ?]%int_add_Some _]%defined_Ok & H7 & _).
  apply bind_Ok in H7 as (n4 & ? & ? & [[-> ?]%int_add_Some _]%defined_Ok & H8 & _).
  apply bind_Ok in H8 as (g1 & ? & ? & [Hg1 _]%defined_Ok & H9 & _).
  apply bind_Ok in H9 as (g2 & ? & ? & [Hg2 _]%defined_Ok & H10 & _).
  apply ret_Ok in H10 as [[= <-] _].
  unfold increment_index in Hg1, Hg2.
  destruct (int_add (m_index (gtPathGenerator st)) 1) as [i1|] eqn:Hi1; [|discriminate].
  destruct (int_add (m_index (relocPathGenerator st)) 1) as [i2|] eqn:Hi2; [|discriminate].
  apply int_add_Some in Hi1 as [-> _], Hi2 as [-> _].
  simpl in Hg1, Hg2. injection Hg1 as <-. injection Hg2 as <-.
  exists b1, b2, b3. simpl. repeat split; lia.
Qed.

(** The invariant survives every turn of the loop. *)
Lemma evaluate_frame_invariant (fs : filesystem) (st st' : LoopState) (t : list event) :
  results_invariant (res st) ->
  evaluate_frame acosf garbage fs st = (Ok (Some st'), t) ->
  results_invariant (res st') /\ poseCount (res st') <= INT_MAX.
Proof.
  intros Hinv (b1 & b2 & b3 & -> & _ & _ & Hmax)%evaluate_frame_continue.
  split; [by apply results_invariant_step | done].
Qed.

Lemma evaluate_loop_invariant (fuel : nat) (fs : filesystem) (st : LoopState)
    (r : SequenceResults) (t : list event) :
  results_invariant (res st) ->
  poseCount (res st) <= INT_MAX ->
  evaluate_loop acosf garbage fuel fs st = (Ok r, t) ->
  results_invariant r /\ poseCount r <= INT_MAX.
Proof.
  revert st t. induction fuel as [|fuel IH]; intros st t Hinv Hmax H; [discriminate|].
  simpl in H. apply bind_Ok in H as ([st'|] & t1 & t2 & Hstep & H' & _).
  - destruct (evaluate_frame_invariant _ _ _ _ Hinv Hstep). by eapply IH.
  - by apply ret_Ok in H' as [<- _].
Qed.

End EvaluatorFacts.

(** C4. Every [SequenceResults] of the sequence evaluator satisfies the
    invariant: each of the three sequences of booleans has [poseCount]
    entries and each of the three counters is the number of [true] entries of
    its sequence. The invariant holds for the variables of the loop before
    the first turn and after every turn, and for the result returned. *)
Theorem sequence_results_invariant (acosf : float -> float) (garbage : path -> nat -> float)
    (fs : filesystem) (gtFolder relocFolder : path) :
  (forall st, reached acosf garbage fs gtFolder relocFolder st -> results_invariant (res st)) /\
  (forall fuel r t,
     evaluate_sequence acosf garbage fuel fs gtFolder relocFolder = (Ok r, t) ->
     results_invariant r).
Proof.
  split.
  - induction 1 as [|st st' t _ IH Hstep].
    + apply results_invariant_default.
    + by destruct (evaluate_frame_invariant _ _ _ _ _ _ IH Hstep).
  - intros fuel r t H.
    eapply (evaluate_loop_invariant acosf garbage fuel fs _ r t); [| |exact H].
    + apply results_invariant_default.
    + done.
Qed.

Lemma sequence_results_invariant_witness :
  results_invariant
    {| poseCount := 2; validPosesAfterReloc := 1; validPosesAfterICP := 0;
       validFinalPoses := 0; relocalizationResults := [true; false];
       icpResults := [false; false]; finalResults := [false; false] |}.
Proof.
  eapply (proj2 (sequence_results_invariant acosf_at_one no_garbage_anywhere two_frames "gt" "reloc")
            3%nat).
  vm_compute. reflexivity.
Defined.

(* ===================================================================== *)
(** ** The file names of the frames *)
(* ===================================================================== *)

Lemma append_cons (c : ascii) (s1 s2 : string) :
  String c s1 +:+ s2 = String c (s1 +:+ s2).
Proof. reflexivity. Qed.

Lemma list_ascii_of_string_app (s1 s2 : string) :
  list_ascii_of_string (s1 +:+ s2) = list_ascii_of_string s1 ++ list_ascii_of_string s2.
Proof.
  induction s1 as [|c s1 IH]; [done|].
  rewrite append_cons. simpl. by rewrite IH.
Qed.

Lemma list_ascii_of_string_inj (s1 s2 : string) :
  list_ascii_of_string s1 = list_ascii_of_string s2 -> s1 = s2.
Proof.
  intros H. rewrite <- (string_of_list_ascii_of_string s1), H.
  apply string_of_list_ascii_of_string.
Qed.

Lemma number_of_zeros (k : nat) (s : string) :
  number_of (zeros k +:+ s) = number_of s.
Proof.
  induction k as [|k IH]; [done|].
  unfold number_of in *. cbn [zeros]. rewrite append_cons. cbn [NilEmpty.uint_of_string].
  destruct (NilEmpty.uint_of_string (zeros k +:+ s)) as [d|],
           (NilEmpty.uint_of_string s) as [d'|]; simpl in *; congruence.
Qed.

Lemma number_of_digits (n : N) : number_of (digits n) = Some n.
Proof.
  unfold number_of, digits.
  assert (Hnil : N.to_uint n <> Decimal.Nil).
  { destruct n; [discriminate|]. apply DecimalPos.Unsigned.to_uint_nonnil. }
  assert (NilZero.string_of_uint (N.to_uint n) = NilEmpty.string_of_uint (N.to_uint n)) as ->.
  { by destruct (N.to_uint n). }
  rewrite NilEmpty.usu. simpl. f_equal. apply DecimalN.Unsigned.of_to.
Qed.

Lemma number_of_pad6 (i : Z) : 0 <= i -> number_of (pad6 i) = Some (Z.to_N i).
Proof.
  intros Hi. unfold pad6.
  destruct (Z.ltb_spec i 0) as [?|_]; [lia|].
  rewrite number_of_zeros, number_of_digits. f_equal. lia.
Qed.

(** The conversion [%06i] is one to one on the indices of frames. *)
Lemma pad6_inj (i j : Z) : 0 <= i -> 0 <= j -> pad6 i = pad6 j -> i = j.
Proof.
  intros Hi Hj H.
  pose proof (number_of_pad6 i Hi) as Ni. pose proof (number_of_pad6 j Hj) as Nj.
  rewrite H, Nj in Ni. injection Ni as Ni. lia.
Qed.

(** The shape of the four file names of a frame. *)
Lemma gt_path_shape (gtFolder : path) (i : Z) :
  gt_path gtFolder i = gtFolder +:+ "/frame-" +:+ pad6 i +:+ ".pose.txt".
Proof. reflexivity. Qed.

Lemma reloc_path_shape (relocFolder : path) (i : Z) :
  reloc_path relocFolder i = relocFolder +:+ "/pose-" +:+ pad6 i +:+ ".reloc.txt".
Proof. reflexivity. Qed.

Lemma icp_path_shape (relocFolder : path) (i : Z) :
  icp_path relocFolder i = relocFolder +:+ "/pose-" +:+ pad6 i +:+ ".icp.txt".
Proof. reflexivity. Qed.

Lemma final_path_shape (relocFolder : path) (i : Z) :
  final_path relocFolder i = relocFolder +:+ "/pose-" +:+ pad6 i +:+ ".final.txt".
Proof. reflexivity. Qed.

(** Names of the same kind agree only on the same index. *)
Lemma same_shape_inj (folder before after : string) (i j : Z) :
  0 <= i -> 0 <= j ->
  folder +:+ before +:+ pad6 i +:+ after = folder +:+ before +:+ pad6 j +:+ after ->
  i = j.
Proof.
  intros Hi Hj H. apply (pad6_inj i j Hi Hj), list_ascii_of_string_inj.
  apply (f_equal list_ascii_of_string) in H.
  rewrite !list_ascii_of_string_app in H.
  by apply app_inv_head, app_inv_head, app_inv_tail in H.
Qed.

(** Names whose endings differ are different. *)
Lemma other_shape_clash (folder folder' before before' after after' : string) (i j : Z) :
  (forall l l' : list ascii,
     List.rev (list_ascii_of_string after) ++ l
       <> List.rev (list_ascii_of_string after') ++ l') ->
  folder +:+ before +:+ pad6 i +:+ after <> folder' +:+ before' +:+ pad6 j +:+ after'.
Proof.
  intros Hclash H.
  apply (f_equal list_ascii_of_string) in H.
  rewrite !list_ascii_of_string_app in H.
  apply (f_equal (@List.rev ascii)) in H.
  rewrite !List.app_assoc, !(List.rev_app_distr _ (list_ascii_of_string after)),
    !(List.rev_app_distr _ (list_ascii_of_string after')) in H.
  by apply Hclash in H.
Qed.

(** The files of two frames of a sequence are different files. *)
Lemma frame_paths_disjoint (gtFolder relocFolder : path) (i j : Z) (p : path) :
  0 <= i -> 0 <= j ->
  p ∈ frame_paths gtFolder relocFolder i ->
  p ∈ frame_paths gtFolder relocFolder j ->
  i = j.
Proof.
  intros Hi Hj Hpi Hpj.
  unfold frame_paths, result_paths in Hpi, Hpj.
  rewrite !elem_of_cons, elem_of_nil in Hpi, Hpj.
  rewrite gt_path_shape, reloc_path_shape, icp_path_shape, final_path_shape in Hpi, Hpj.
  destruct Hpi as [->|[->|[->|[->|[]]]]], Hpj as [H|[H|[H|[H|[]]]]];
    first [ exact (same_shape_inj _ _ _ i j Hi Hj H)
          | exfalso; revert H; apply other_shape_clash;
            intros l l' Hl; simpl in Hl; discriminate Hl ].
Qed.

(* ===================================================================== *)
(** ** The sequence evaluator: the run up to the first gap *)
(* ===================================================================== *)

Lemma bind_run {A B : Type} (m : IO A) (f : A -> IO B) (a : A) (t1 : list event)
    (r : outcome B) (t2 : list event) :
  m = (Ok a, t1) -> f a = (r, t2) -> (m ≫= f) = (r, t1 ++ t2).
Proof. intros -> Hf. unfold mbind, io_bind. by rewrite Hf. Qed.

Lemma elem_of_concat {A : Type} (x : A) (ls : list (list A)) :
  x ∈ concat ls -> exists l, x ∈ l /\ l ∈ ls.
Proof.
  induction ls as [|l ls IH]; simpl.
  - by intros ?%elem_of_nil.
  - intros [H|H]%elem_of_app.
    + exists l. split; [done|]. apply elem_of_cons. by left.
    + destruct (IH H) as (l' & ? & ?). exists l'. split; [done|].
      apply elem_of_cons. by right.
Qed.

Lemma Forall_on_frame (gtFolder relocFolder : path) (i : Z) (p : path) (t : list event) :
  p ∈ frame_paths gtFolder relocFolder i ->
  Forall (λ e, event_path e = Some p) t ->
  Forall (λ e, exists q, event_path e = Some q /\ q ∈ frame_paths gtFolder relocFolder i) t.
Proof. intros Hp H. eapply Forall_impl; [exact H|]. intros e He. by exists p. Qed.

Lemma gt_path_on_frame (gtFolder relocFolder : path) (i : Z) :
  gt_path gtFolder i ∈ frame_paths gtFolder relocFolder i.
Proof. apply elem_of_cons. by left. Qed.

Lemma result_paths_on_frame (gtFolder relocFolder : path) (i : Z) (p : path) :
  p ∈ result_paths relocFolder i -> p ∈ frame_paths gtFolder relocFolder i.
Proof. intros Hp. apply elem_of_cons. by right. Qed.

Lemma reloc_path_result (relocFolder : path) (i : Z) :
  reloc_path relocFolder i ∈ result_paths relocFolder i.
Proof. apply elem_of_cons. by left. Qed.

Lemma icp_path_result (relocFolder : path) (i : Z) :
  icp_path relocFolder i ∈ result_paths relocFolder i.
Proof. apply elem_of_cons. right. apply elem_of_cons. by left. Qed.

Lemma final_path_result (relocFolder : path) (i : Z) :
  final_path relocFolder i ∈ result_paths relocFolder i.
Proof. do 2 (apply elem_of_cons; right). apply elem_of_cons. by left. Qed.

Section RunFacts.

Variable acosf : float -> float.
Variable garbage : path -> nat -> float.
Variable fs : filesystem.
Variable gtFolder relocFolder : path.

(** A turn at a frame whose ground truth is missing leaves the loop after
    one query of the status of that file. *)
Lemma evaluate_frame_missing (i : Z) (st : LoopState) :
  at_frame gtFolder relocFolder i st ->
  missing fs (gt_path gtFolder i) ->
  evaluate_frame acosf garbage fs st = (Ok None, [Status (gt_path gtFolder i)]).
Proof.
  intros [Hgt _ _ _] Hmiss. unfold evaluate_frame. cbv zeta. rewrite Hgt.
  change (make_path _ "frame-%06i.pose.txt") with (gt_path gtFolder i).
  rewrite (bind_run _ _ false [Status (gt_path gtFolder i)] (Ok None) []); [done| |done].
  rewrite is_regular_cases. by destruct Hmiss as [-> | ->].
Qed.

(** A turn at a frame whose ground truth is there, and whose result files
    can be queried, goes on to the next frame; all it touches are the four
    files of the frame, the ground truth first. *)
Lemma evaluate_frame_present (i : Z) (st : LoopState) (content : list token) :
  at_frame gtFolder relocFolder i st ->
  0 <= i < INT_MAX ->
  fs !! gt_path gtFolder i = Some (Regular content) ->
  (forall p, p ∈ result_paths relocFolder i -> fs !! p ≠ Some Inaccessible) ->
  exists st' t,
    evaluate_frame acosf garbage fs st = (Ok (Some st'), t) /\
    at_frame gtFolder relocFolder (i + 1) st' /\
    head t = Some (Status (gt_path gtFolder i)) /\
    Forall (λ e, exists p, event_path e = Some p /\
                           p ∈ frame_paths gtFolder relocFolder i) t.
Proof.
  intros [Hgt Hreloc Hcount Hinv] Hi Hcontent Hacc.
  set (gtPose := parsed (garbage (gt_path gtFolder i)) content).
  destruct (pose_file_matches_cases acosf garbage fs gtPose (reloc_path relocFolder i))
    as [[H _]|[_ (b1 & t1 & H1 & Ht1)]];
    [by apply Hacc in H; [|apply reloc_path_result]|].
  destruct (pose_file_matches_cases acosf garbage fs gtPose (icp_path relocFolder i))
    as [[H _]|[_ (b2 & t2 & H2 & Ht2)]];
    [by apply Hacc in H; [|apply icp_path_result]|].
  destruct (pose_file_matches_cases acosf garbage fs gtPose (final_path relocFolder i))
    as [[H _]|[_ (b3 & t3 & H3 & Ht3)]];
    [by apply Hacc in H; [|apply final_path_result]|].
  pose proof (count_true_bounds (relocalizationResults (res st))) as B1.
  pose proof (count_true_bounds (icpResults (res st))) as B2.
  pose proof (count_true_bounds (finalResults (res st))) as B3.
  pose proof (int_of_bool_bounds b1) as C1.
  pose proof (int_of_bool_bounds b2) as C2.
  pose proof (int_of_bool_bounds b3) as C3.
  destruct Hinv as [L1 L2 L3 N1 N2 N3].
  assert (Hmin : INT_MIN < 0) by done.
  assert (exists st' t, evaluate_frame acosf garbage fs st = (Ok (Some st'), t) /\
            t = [Status (gt_path gtFolder i)] ++
                [Status (gt_path gtFolder i); Read (gt_path gtFolder i)] ++
                t1 ++ t2 ++ t3 ++ []) as (st' & t & Hstep & ->).
  { eexists _, _. split.
    - unfold evaluate_frame. cbv zeta. rewrite Hgt, Hreloc.
      change (make_path _ "frame-%06i.pose.txt") with (gt_path gtFolder i).
      change (make_path _ "pose-%06i.reloc.txt") with (reloc_path relocFolder i).
      change (make_path _ "pose-%06i.icp.txt") with (icp_path relocFolder i).
      change (make_path _ "pose-%06i.final.txt") with (final_path relocFolder i).
      eapply bind_run; [by rewrite is_regular_cases, Hcontent|]. simpl negb. cbv iota.
      eapply bind_run; [by apply read_pose_from_file_regular|].
      eapply bind_run; [exact H1|].
      eapply bind_run; [exact H2|].
      eapply bind_run; [exact H3|].
      eapply bind_run; [rewrite int_add_in_range; [done|lia]|].
      eapply bind_run; [rewrite int_add_in_range; [done|lia]|].
      eapply bind_run; [rewrite int_add_in_range; [done|lia]|].
      eapply bind_run; [rewrite int_add_in_range; [done|lia]|].
      eapply bind_run;
        [unfold increment_index; simpl; rewrite int_add_in_range; [done|lia]|].
      eapply bind_run;
        [unfold increment_index; simpl; rewrite int_add_in_range; [done|lia]|].
      reflexivity.
    - reflexivity. }
  exists st', (([Status (gt_path gtFolder i)] ++
                [Status (gt_path gtFolder i); Read (gt_path gtFolder i)] ++
                t1 ++ t2 ++ t3 ++ [])).
  split; [exact Hstep|]. split; [|split].
  - destruct (evaluate_frame_continue _ _ _ _ _ _ Hstep)
      as (c1 & c2 & c3 & Hres & Hg & Hr & _).
    constructor.
    + by rewrite Hg, Hgt.
    + by rewrite Hr, Hreloc.
    + rewrite Hres. simpl. lia.
    + rewrite Hres. by apply results_invariant_step.
  - reflexivity.
  - rewrite !Forall_app. repeat split.
    + apply (Forall_on_frame _ _ _ (gt_path gtFolder i)); [apply gt_path_on_frame|].
      by repeat constructor.
    + apply (Forall_on_frame _ _ _ (gt_path gtFolder i)); [apply gt_path_on_frame|].
      by repeat constructor.
    + apply (Forall_on_frame _ _ _ (reloc_path relocFolder i)); [|done].
      apply result_paths_on_frame, reloc_path_result.
    + apply (Forall_on_frame _ _ _ (icp_path relocFolder i)); [|done].
      apply result_paths_on_frame, icp_path_result.
    + apply (Forall_on_frame _ _ _ (final_path relocFolder i)); [|done].
      apply result_paths_on_frame, final_path_result.
    + constructor.
Qed.


(** From frame [i] on, with [k] frames left before the first gap at [n]. *)
Lemma evaluate_loop_run (n : nat) :
  Z.of_nat n <= INT_MAX ->
  (forall i : nat, (i < n)%nat ->
     exists content, fs !! gt_path gtFolder (Z.of_nat i) = Some (Regular content)) ->
  missing fs (gt_path gtFolder (Z.of_nat n)) ->
  (forall (i : nat) p, (i < n)%nat -> p ∈ result_paths relocFolder (Z.of_nat i) ->
     fs !! p ≠ Some Inaccessible) ->
  forall (k i : nat) (st : LoopState) (fuel : nat),
    (i + k = n)%nat ->
    at_frame gtFolder relocFolder (Z.of_nat i) st ->
    (k < fuel)%nat ->
    exists r segments,
      evaluate_loop acosf garbage fuel fs st
        = (Ok r, concat segments ++ [Status (gt_path gtFolder (Z.of_nat n))]) /\
      poseCount r = Z.of_nat n /\
      length segments = k /\
      forall (j : nat) segment, segments !! j = Some segment ->
        head segment = Some (Status (gt_path gtFolder (Z.of_nat (i + j)))) /\
        Forall (λ e, exists p, event_path e = Some p /\
                  p ∈ frame_paths gtFolder relocFolder (Z.of_nat (i + j))) segment.
Proof.
  intros Hmax Hpresent Hgap Hacc k.
  induction k as [|k IH]; intros i st fuel Hik Hat Hfuel.
  - destruct fuel as [|fuel]; [lia|].
    assert (i = n) as -> by lia.
    exists (res st), []. split; [|split; [by destruct Hat|split; [done|]]].
    + simpl.
      rewrite (bind_run _ _ None [Status (gt_path gtFolder (Z.of_nat n))] (Ok (res st)) []);
        [done|by apply evaluate_frame_missing|done].
    + intros j segment Hj. by rewrite lookup_nil in Hj.
  - destruct fuel as [|fuel]; [lia|].
    destruct (Hpresent i) as [content Hcontent]; [lia|].
    destruct (evaluate_frame_present (Z.of_nat i) st content Hat)
      as (st' & t & Hstep & Hat' & Hhd & Hall);
      [lia|done|intros p; apply Hacc; lia|].
    replace (Z.of_nat i + 1) with (Z.of_nat (S i)) in Hat' by lia.
    destruct (IH (S i) st' fuel) as (r & segments & Hrun & Hcount & Hlen & Hsegs);
      [lia|done|lia|].
    exists r, (t :: segments). split; [|split; [done|split; [by simpl; rewrite Hlen|]]].
    + simpl. rewrite <- app_assoc. eapply bind_run; [exact Hstep|exact Hrun].
    + intros [|j] segment Hj; simpl in Hj.
      * injection Hj as <-. by rewrite Nat.add_0_r.
      * replace (i + S j)%nat with (S i + j)%nat by lia. by apply Hsegs.
Qed.

End RunFacts.

(** C2. Let the ground-truth files of the frames 0 to n-1 be regular files
    and the one of frame n be missing (n is the length of the longest run of
    consecutive zero-based ground-truth files), and let the status of the
    result files of those frames be available. Then, with enough turns
    allowed, the sequence evaluator returns normally with [poseCount = n]. Its
    events split into one segment per frame 0, 1, ..., n-1, in this order,
    each starting with the check of the ground-truth file of its frame and
    touching only the four files of its frame, followed by the one check of
    the ground-truth file of frame n: every file read belongs to a frame
    before the gap, and no file of frame n or of a later frame is read. *)
Theorem evaluate_sequence_stops_at_first_gap (acosf : float -> float)
    (garbage : path -> nat -> float) (fs : filesystem) (gtFolder relocFolder : path)
    (n fuel : nat) :
  Z.of_nat n <= INT_MAX ->
  (forall i : nat, (i < n)%nat ->
     exists content, fs !! gt_path gtFolder (Z.of_nat i) = Some (Regular content)) ->
  missing fs (gt_path gtFolder (Z.of_nat n)) ->
  (forall (i : nat) p, (i < n)%nat -> p ∈ result_paths relocFolder (Z.of_nat i) ->
     fs !! p ≠ Some Inaccessible) ->
  (n < fuel)%nat ->
  exists r segments,
    evaluate_sequence acosf garbage fuel fs gtFolder relocFolder
      = (Ok r, concat segments ++ [Status (gt_path gtFolder (Z.of_nat n))]) /\
    poseCount r = Z.of_nat n /\
    length segments = n /\
    (forall (i : nat) segment, segments !! i = Some segment ->
       head segment = Some (Status (gt_path gtFolder (Z.of_nat i))) /\
       Forall (λ e, exists p, event_path e = Some p /\
                 p ∈ frame_paths gtFolder relocFolder (Z.of_nat i)) segment) /\
    (forall p, Read p ∈ concat segments ++ [Status (gt_path gtFolder (Z.of_nat n))] ->
       exists i : nat, (i < n)%nat /\ p ∈ frame_paths gtFolder relocFolder (Z.of_nat i)) /\
    (forall (j : nat) p, (n <= j)%nat ->
       p ∈ frame_paths gtFolder relocFolder (Z.of_nat j) ->
       Read p ∉ concat segments ++ [Status (gt_path gtFolder (Z.of_nat n))]).
Proof.
  intros Hmax Hpresent Hgap Hacc Hfuel.
  destruct (evaluate_loop_run acosf garbage fs gtFolder relocFolder n Hmax Hpresent Hgap Hacc
              n 0%nat
              {| gtPathGenerator := SequentialPathGenerator_new gtFolder;
                 relocPathGenerator := SequentialPathGenerator_new relocFolder;
                 res := SequenceResults_default |} fuel)
    as (r & segments & Hrun & Hcount & Hlen & Hsegs); [done| |done|].
  { constructor; [done|done|done|apply results_invariant_default]. }
  assert (Hreads : forall p,
            Read p ∈ concat segments ++ [Status (gt_path gtFolder (Z.of_nat n))] ->
            exists i : nat, (i < n)%nat /\ p ∈ frame_paths gtFolder relocFolder (Z.of_nat i)).
  { intros p [Hin|Hin]%elem_of_app.
    - apply elem_of_concat in Hin as (segment & Hp & [i Hi]%list_elem_of_lookup).
      exists i. split.
      + apply lookup_lt_Some in Hi. lia.
      + destruct (Hsegs i segment Hi) as [_ Hall].
        rewrite Forall_forall in Hall.
        destruct (Hall _ Hp) as (q & [= <-] & Hq). done.
    - apply list_elem_of_singleton in Hin. discriminate. }
  exists r, segments. split; [exact Hrun|]. split; [done|]. split; [done|]. split; [done|].
  split; [exact Hreads|].
  intros j p Hj Hpj Hin. destruct (Hreads p Hin) as (i & Hi & Hpi).
  assert (Z.of_nat i = Z.of_nat j); [|lia].
  apply (frame_paths_disjoint gtFolder relocFolder _ _ p); [lia|lia|done|done].
Qed.

Lemma evaluate_sequence_stops_at_first_gap_witness :
  exists r segments,
    evaluate_sequence acosf_at_one no_garbage_anywhere 3 two_frames "gt" "reloc"
      = (Ok r, concat segments ++ [Status (gt_path "gt" (Z.of_nat 2))]) /\
    poseCount r = Z.of_nat 2 /\
    length segments = 2%nat /\
    (forall (i : nat) segment, segments !! i = Some segment ->
       head segment = Some (Status (gt_path "gt" (Z.of_nat i))) /\
       Forall (λ e, exists p, event_path e = Some p /\
                 p ∈ frame_paths "gt" "reloc" (Z.of_nat i)) segment) /\
    (forall p, Read p ∈ concat segments ++ [Status (gt_path "gt" (Z.of_nat 2))] ->
       exists i : nat, (i < 2)%nat /\ p ∈ frame_paths "gt" "reloc" (Z.of_nat i)) /\
    (forall (j : nat) p, (2 <= j)%nat ->
       p ∈ frame_paths "gt" "reloc" (Z.of_nat j) ->
       Read p ∉ concat segments ++ [Status (gt_path "gt" (Z.of_nat 2))]).
Proof.
  apply (evaluate_sequence_stops_at_first_gap acosf_at_one no_garbage_anywhere two_frames
           "gt" "reloc" 2 3).
  - vm_compute. discriminate.
  - intros [|[|i]] Hi; [eexists; vm_compute; reflexivity ..|lia].
  - left. vm_compute. reflexivity.
  - intros [|[|i]] p Hi Hp; [| |lia];
      unfold result_paths in Hp; rewrite !elem_of_cons, elem_of_nil in Hp;
      destruct Hp as [->|[->|[->|[]]]]; vm_compute; discriminate.
  - lia.
Defined.

(* ===================================================================== *)
(** ** The driver *)
(* ===================================================================== *)

Lemma try_catch_Ok {A : Type} (m h : IO A) (a : A) (t : list event) :
  m = (Ok a, t) -> try_catch m h = (Ok a, t).
Proof. by intros ->. Qed.

Lemma try_catch_Throw {A : Type} (m h : IO A) (e : exn) (t : list event) :
  m = (Throw e, t) -> try_catch m h = (h.1, t ++ h.2).
Proof. intros ->. simpl. by destruct h. Qed.

Section DriverFacts.

Variable acosf : float -> float.
Variable garbage : path -> nat -> float.
Variable fuel : nat.
Variable fs : filesystem.
Variable opts : Options.

Local Abbreviation run_of := (run_of acosf garbage fuel fs opts).

(** One turn of the loop over the sequences. *)
Lemma evaluate_sequences_cons (sequence : string) (rest : list string)
    (results : gmap string SequenceResults) :
  returns (run_of sequence) ->
  evaluate_sequences acosf garbage fuel fs opts (sequence :: rest) results =
    let results' := match (run_of sequence).1 with
                    | Ok r => <[sequence := r]> results
                    | _ => results
                    end in
    let next := evaluate_sequences acosf garbage fuel fs opts rest results' in
    (next.1, sequence_trace acosf garbage fuel fs opts sequence ++ next.2).
Proof.
  unfold returns, sequence_trace.
  destruct (run_of sequence) as [[r|e| |] t] eqn:Hrun; simpl; [intros _|intros _|done|done].
  - unfold run_of in Hrun. rewrite Hrun. simpl.
    destruct (evaluate_sequences _ _ _ _ _ rest _) as [o t']. simpl.
    by rewrite !app_nil_r.
  - unfold run_of in Hrun. rewrite Hrun. simpl.
    destruct (evaluate_sequences _ _ _ _ _ rest _) as [o t']. simpl.
    by rewrite <- !app_assoc.
Qed.

Lemma evaluate_sequences_run (sequenceNames : list string) :
  forall results0 : gmap string SequenceResults,
    (forall s, s ∈ sequenceNames -> returns (run_of s)) ->
    exists results,
      evaluate_sequences acosf garbage fuel fs opts sequenceNames results0 =
        (Ok results, concat (map (sequence_trace acosf garbage fuel fs opts) sequenceNames)) /\
      forall s,
        results !! s =
          if decide (s ∈ sequenceNames)
          then match (run_of s).1 with
               | Ok r => Some r
               | _ => results0 !! s
               end
          else results0 !! s.
Proof.
  induction sequenceNames as [|sequence rest IH]; intros results0 Hret.
  - exists results0. split; [done|]. intros s. by rewrite decide_False by apply not_elem_of_nil.
  - assert (Hhead : returns (run_of sequence)) by (apply Hret, elem_of_cons; by left).
    assert (Hrest : forall s, s ∈ rest -> returns (run_of s))
      by (intros s Hs; apply Hret, elem_of_cons; by right).
    rewrite (evaluate_sequences_cons _ _ _ Hhead). cbv zeta.
    destruct (IH (match (run_of sequence).1 with
                  | Ok r => <[sequence := r]> results0
                  | _ => results0
                  end) Hrest) as (results & -> & Hlookup).
    exists results. split; [done|]. intros s. rewrite Hlookup.
    destruct (decide (s ∈ rest)) as [Hin|Hnotin].
    + rewrite decide_True by (apply elem_of_cons; by right).
      destruct (run_of s).1 as [r| | |] eqn:Hs; [done| | |];
        (destruct (run_of sequence).1 eqn:Hseq; [|done..];
         rewrite lookup_insert_ne; [done|]; intros ->; congruence).
    + destruct (decide (s = sequence)) as [->|Hne].
      * rewrite decide_True by (apply elem_of_cons; by left).
        destruct (run_of sequence).1; [by rewrite lookup_insert_eq|done..].
      * rewrite decide_False by (rewrite elem_of_cons; tauto).
        destruct (run_of sequence).1; [by rewrite lookup_insert_ne|done..].
Qed.

Lemma try_catch_inv {A : Type} (m h : IO A) (a : A) (t : list event) :
  try_catch m h = (Ok a, t) ->
  (exists t', m = (Ok a, t')) \/ (exists e t1 t2, m = (Throw e, t1) /\ h = (Ok a, t2)).
Proof.
  destruct m as [[a'|e| |] t1]; simpl; try discriminate.
  - intros [= -> ->]. left. by exists t.
  - destruct h as [r t2]. intros [= -> <-]. right. by exists e, t1, t2.
Qed.

(** The results the driver collects satisfy the invariant and their pose
    counts fit an [int], whatever happened to the other sequences. *)
Lemma evaluate_sequences_invariant (sequenceNames : list string) :
  forall (results0 results : gmap string SequenceResults) (t : list event),
    (forall s, results_invariant (results_at results0 s) /\
               poseCount (results_at results0 s) <= INT_MAX) ->
    evaluate_sequences acosf garbage fuel fs opts sequenceNames results0 = (Ok results, t) ->
    forall s, results_invariant (results_at results s) /\
              poseCount (results_at results s) <= INT_MAX.
Proof.
  induction sequenceNames as [|sequence rest IH]; intros results0 results t Hinv H.
  - by apply ret_Ok in H as [<- _].
  - cbn [evaluate_sequences] in H.
    apply bind_Ok in H as ([] & ? & ? & _ & H1 & _).
    apply bind_Ok in H1 as (results1 & ? & ? & Htry & H2 & _).
    eapply (IH results1 results); [|exact H2].
    apply try_catch_inv in Htry as [[t' Hok]|(e & t1 & t2 & _ & Hcatch)].
    + apply bind_Ok in Hok as (r & ? & ? & Hr & Hret & _).
      apply ret_Ok in Hret as [<- _].
      apply evaluate_loop_invariant in Hr; [|apply results_invariant_default|done].
      intros s. unfold results_at. rewrite lookup_total_insert.
      case_decide; [done|apply Hinv].
    + apply bind_Ok in Hcatch as ([] & ? & ? & _ & Hret & _).
      by apply ret_Ok in Hret as [<- _].
Qed.

End DriverFacts.

(** C8. In a run over several sequences in which every evaluation comes
    back, with a result or with an exception, the driver goes through all the
    sequences: an exception raised while one sequence is evaluated is caught
    there, the message "Sequence has not been evaluated." is written, the
    sequence reads as a default-constructed result (zero poses in the table),
    and every other sequence is evaluated and has its own result recorded;
    the table of a run that completes has one row per sequence, in order. *)
Theorem sequence_failures_are_isolated (acosf : float -> float) (garbage : path -> nat -> float)
    (fuel : nat) (fs : filesystem) (opts : Options) (sequenceNames : list string) :
  (forall s, s ∈ sequenceNames -> returns (run_of acosf garbage fuel fs opts s)) ->
  exists results,
    evaluate_sequences acosf garbage fuel fs opts sequenceNames ∅ =
      (Ok results, concat (map (sequence_trace acosf garbage fuel fs opts) sequenceNames)) /\
    (forall s, s ∈ sequenceNames ->
      match (run_of acosf garbage fuel fs opts s).1 with
      | Ok r =>
          results !! s = Some r /\
          row_poses (table_row results s) = poseCount r
      | _ =>
          results_at results s = SequenceResults_default /\
          row_poses (table_row results s) = 0 /\
          Cerr not_evaluated_message ∈ sequence_trace acosf garbage fuel fs opts s
      end) /\
    (forall report t,
       main acosf garbage fuel fs opts sequenceNames = (Ok report, t) ->
       map row_sequence (report_table report) = sequenceNames).
Proof.
  intros Hret.
  destruct (evaluate_sequences_run acosf garbage fuel fs opts sequenceNames ∅ Hret)
    as (results & Hrun & Hlookup).
  exists results. split; [done|]. split.
  - intros s Hs.
    specialize (Hlookup s). rewrite decide_True in Hlookup by done.
    specialize (Hret s Hs). unfold returns in Hret.
    unfold table_row, results_at, sequence_trace. simpl.
    rewrite lookup_total_alt, Hlookup.
    destruct (run_of acosf garbage fuel fs opts s).1 as [r|e| |]; [done| |done..].
    rewrite lookup_empty. split; [done|]. split; [done|].
    rewrite elem_of_cons, elem_of_app, list_elem_of_singleton. tauto.
  - intros report t Hmain. unfold main in Hmain.
    apply bind_Ok in Hmain as (results' & ? & ? & _ & H1 & _).
    apply bind_Ok in H1 as (summary & ? & ? & _ & H2 & _).
    apply bind_Ok in H2 as (csv & ? & ? & _ & H3 & _).
    apply ret_Ok in H3 as [<- _]. simpl.
    rewrite map_map. apply map_id.
Qed.

Lemma sequence_failures_are_isolated_witness :
  exists results,
    evaluate_sequences acosf_at_one no_garbage_anywhere 3 two_sequences example_options
        ["bad"; "good"] ∅ =
      (Ok results,
       concat (map (sequence_trace acosf_at_one no_garbage_anywhere 3 two_sequences example_options)
                   ["bad"; "good"])) /\
    (forall s, s ∈ ["bad"; "good"] ->
      match (run_of acosf_at_one no_garbage_anywhere 3 two_sequences example_options s).1 with
      | Ok r =>
          results !! s = Some r /\
          row_poses (table_row results s) = poseCount r
      | _ =>
          results_at results s = SequenceResults_default /\
          row_poses (table_row results s) = 0 /\
          Cerr not_evaluated_message
            ∈ sequence_trace acosf_at_one no_garbage_anywhere 3 two_sequences example_options s
      end) /\
    (forall report t,
       main acosf_at_one no_garbage_anywhere 3 two_sequences example_options ["bad"; "good"]
         = (Ok report, t) ->
       map row_sequence (report_table report) = ["bad"; "good"]).
Proof.
  apply (sequence_failures_are_isolated acosf_at_one no_garbage_anywhere 3 two_sequences
           example_options ["bad"; "good"]).
  intros s Hs. rewrite !elem_of_cons, elem_of_nil in Hs.
  destruct Hs as [->|[->|[]]]; vm_compute; exact I.
Defined.

(* ===================================================================== *)
(** ** The summary *)
(* ===================================================================== *)

Lemma int_sum_cons (x : Z) (l : list Z) : int_sum (x :: l) = x + int_sum l.
Proof. reflexivity. Qed.

Lemma int_sum_nonneg (l : list Z) : Forall (λ x, 0 <= x) l -> 0 <= int_sum l.
Proof. induction 1; [done|]. rewrite int_sum_cons. lia. Qed.

(** The loop over the sequences computes, accumulator by accumulator, the
    sums the spec names. *)
Lemma accumulate_all_sums (results : gmap string SequenceResults) (sequenceNames : list string) :
  forall sums : Sums,
    let rs := map (results_at results) sequenceNames in
    Forall (λ r, 0 <= poseCount r) rs ->
    INT_MIN <= poseCountSum sums ->
    poseCountSum sums + int_sum (map poseCount rs) <= INT_MAX ->
    accumulate_all results sequenceNames sums =
      Some {|
        relocSum := fold_left F32.add
          (map (λ r, F32.div (F32.of_Z (validPosesAfterReloc r)) (F32.of_Z (poseCount r))) rs)
          (relocSum sums);
        icpSum := fold_left F32.add
          (map (λ r, F32.div (F32.of_Z (validPosesAfterICP r)) (F32.of_Z (poseCount r))) rs)
          (icpSum sums);
        finalSum := fold_left F32.add
          (map (λ r, F32.div (F32.of_Z (validFinalPoses r)) (F32.of_Z (poseCount r))) rs)
          (finalSum sums);
        relocRawSum := fold_left F32.add
          (map (λ r, F32.of_Z (validPosesAfterReloc r)) rs) (relocRawSum sums);
        icpRawSum := fold_left F32.add
          (map (λ r, F32.of_Z (validPosesAfterICP r)) rs) (icpRawSum sums);
        finalRawSum := fold_left F32.add
          (map (λ r, F32.of_Z (validFinalPoses r)) rs) (finalRawSum sums);
        poseCountSum := poseCountSum sums + int_sum (map poseCount rs)
      |}.
Proof.
  induction sequenceNames as [|sequence rest IH]; intros sums rs Hpos Hmin Hmax.
  - simpl. destruct sums. simpl. by rewrite Z.add_0_r.
  - subst rs. cbn [map] in *. rewrite int_sum_cons in Hmax.
    apply Forall_cons in Hpos as [Hhead Htail].
    assert (Hsum : 0 <= int_sum (map poseCount (map (results_at results) rest))).
    { apply int_sum_nonneg. by apply Forall_fmap. }
    cbn [accumulate_all]. unfold accumulate.
    rewrite int_add_in_range by lia. cbn [mbind option_bind].
    rewrite IH; cbn [poseCountSum]; [|done|lia|lia].
    cbn [fold_left relocSum icpSum finalSum relocRawSum icpRawSum finalRawSum].
    by rewrite int_sum_cons, Z.add_assoc.
Qed.

(** C5. For results with non-negative pose counts whose total fits an
    [int], the summary holds, for each stage, the unweighted average (the
    mean over the sequences of match count / poseCount) and the weighted
    average (the sum of the match counts over the sum of the pose counts), as
    percentages in binary32. A sequence of ten poses at 100% together with a
    sequence of ninety poses at 0% gives exactly 50 for the unweighted and
    exactly 10 for the weighted averages. *)
Theorem averages_follow_the_spec (sequenceNames : list string)
    (results : gmap string SequenceResults) :
  (Forall (λ r, 0 <= poseCount r) (map (results_at results) sequenceNames) ->
   int_sum (map poseCount (map (results_at results) sequenceNames)) <= INT_MAX ->
   compute_averages sequenceNames results
     = Some (summary_of (map (results_at results) sequenceNames))) /\
  (forall short long,
     sequenceNames = [short; long] ->
     poseCount (results_at results short) = 10 ->
     validPosesAfterReloc (results_at results short) = 10 ->
     validPosesAfterICP (results_at results short) = 10 ->
     validFinalPoses (results_at results short) = 10 ->
     poseCount (results_at results long) = 90 ->
     validPosesAfterReloc (results_at results long) = 0 ->
     validPosesAfterICP (results_at results long) = 0 ->
     validFinalPoses (results_at results long) = 0 ->
     compute_averages sequenceNames results =
       Some {| relocAvg := F32.of_Z 50; icpAvg := F32.of_Z 50; finalAvg := F32.of_Z 50;
               relocWeightedAvg := F32.of_Z 10; icpWeightedAvg := F32.of_Z 10;
               finalWeightedAvg := F32.of_Z 10 |}).
Proof.
  assert (Hgen : forall names,
            Forall (λ r, 0 <= poseCount r) (map (results_at results) names) ->
            int_sum (map poseCount (map (results_at results) names)) <= INT_MAX ->
            compute_averages names results = Some (summary_of (map (results_at results) names))).
  { intros names Hpos Hmax. unfold compute_averages.
    rewrite accumulate_all_sums; [|done|done|simpl; lia].
    simpl. unfold summary_of, unweighted_average, weighted_average, float_sum.
    by rewrite length_map. }
  split; [apply Hgen|].
  intros short long -> P1 R1 I1 F1 P2 R2 I2 F2.
  rewrite Hgen; cbn [map].
  - destruct (results_at results short), (results_at results long).
    cbn in P1, R1, I1, F1, P2, R2, I2, F2. subst. vm_compute. reflexivity.
  - rewrite !Forall_cons, P1, P2. by repeat split.
  - by rewrite !int_sum_cons, P1, P2.
Qed.

Lemma averages_follow_the_spec_witness :
  compute_averages ["short"; "long"] short_and_long =
    Some (summary_of (map (results_at short_and_long) ["short"; "long"])) /\
  compute_averages ["short"; "long"] short_and_long =
    Some {| relocAvg := F32.of_Z 50; icpAvg := F32.of_Z 50; finalAvg := F32.of_Z 50;
            relocWeightedAvg := F32.of_Z 10; icpWeightedAvg := F32.of_Z 10;
            finalWeightedAvg := F32.of_Z 10 |}.
Proof.
  split.
  - apply (proj1 (averages_follow_the_spec ["short"; "long"] short_and_long)).
    + repeat constructor; vm_compute; discriminate.
    + vm_compute. discriminate.
  - apply (proj2 (averages_follow_the_spec ["short"; "long"] short_and_long) "short" "long");
      vm_compute; reflexivity.
Defined.

(** Once a sum of ratios is not a number it stays so. *)
Lemma accumulate_all_nan (results : gmap string SequenceResults) (sequenceNames : list string) :
  forall sums sums' : Sums,
    accumulate_all results sequenceNames sums = Some sums' ->
    (relocSum sums = F32.nan -> relocSum sums' = F32.nan) /\
    (icpSum sums = F32.nan -> icpSum sums' = F32.nan) /\
    (finalSum sums = F32.nan -> finalSum sums' = F32.nan).
Proof.
  induction sequenceNames as [|sequence rest IH]; intros sums sums' H.
  - by injection H as <-.
  - cbn [accumulate_all] in H.
    destruct (accumulate results sums sequence) as [sums1|] eqn:Hacc; [|discriminate].
    cbn [mbind option_bind] in H.
    destruct (IH _ _ H) as (H1 & H2 & H3).
    unfold accumulate in Hacc.
    destruct (int_add _ _); [|discriminate]. injection Hacc as <-.
    cbn [relocSum icpSum finalSum] in H1, H2, H3.
    repeat split; intros Hs; [apply H1|apply H2|apply H3]; by rewrite Hs.
Qed.

(** What a sequence without poses adds to the sums. *)
Lemma accumulate_zero_poses (results : gmap string SequenceResults) (sums : Sums)
    (sequence : string) :
  poseCount (results_at results sequence) = 0 ->
  results_invariant (results_at results sequence) ->
  in_int_range (poseCountSum sums) = true ->
  accumulate results sums sequence =
    Some {| relocSum := F32.nan; icpSum := F32.nan; finalSum := F32.nan;
            relocRawSum := F32.add (relocRawSum sums) F32.zero;
            icpRawSum := F32.add (icpRawSum sums) F32.zero;
            finalRawSum := F32.add (finalRawSum sums) F32.zero;
            poseCountSum := poseCountSum sums |}.
Proof.
  intros Hzero [L1 L2 L3 N1 N2 N3] Hrange. unfold accumulate.
  rewrite Hzero in *.
  destruct (relocalizationResults _); [|simpl in L1; lia].
  destruct (icpResults _); [|simpl in L2; lia].
  destruct (finalResults _); [|simpl in L3; lia].
  rewrite N1, N2, N3. cbn [count_true].
  unfold int_add. rewrite Z.add_0_r, Hrange. cbn [mbind option_bind].
  change (F32.div (F32.of_Z 0) (F32.of_Z 0)) with F32.nan.
  by rewrite !F32_add_nan_r.
Qed.

Lemma accumulate_range (results : gmap string SequenceResults) (sums sums' : Sums)
    (sequence : string) :
  accumulate results sums sequence = Some sums' -> in_int_range (poseCountSum sums') = true.
Proof.
  unfold accumulate, int_add.
  destruct (in_int_range (_ + _)) eqn:H; [|discriminate]. by intros [= <-].
Qed.

Lemma accumulate_all_zero_poses (results : gmap string SequenceResults)
    (sequenceNames : list string) (s : string) :
  s ∈ sequenceNames ->
  poseCount (results_at results s) = 0 ->
  results_invariant (results_at results s) ->
  forall sums sums' : Sums,
    in_int_range (poseCountSum sums) = true ->
    accumulate_all results sequenceNames sums = Some sums' ->
    relocSum sums' = F32.nan /\ icpSum sums' = F32.nan /\ finalSum sums' = F32.nan.
Proof.
  intros Hin Hzero Hinv.
  induction sequenceNames as [|sequence rest IH]; intros sums sums' Hrange H.
  - by apply elem_of_nil in Hin.
  - cbn [accumulate_all] in H.
    destruct (decide (s = sequence)) as [<-|Hne].
    + rewrite (accumulate_zero_poses _ _ _ Hzero Hinv Hrange) in H.
      cbn [mbind option_bind] in H.
      destruct (accumulate_all_nan _ _ _ _ H) as (H1 & H2 & H3).
      split; [by apply H1|split; [by apply H2|by apply H3]].
    + apply elem_of_cons in Hin as [?|Hin]; [done|].
      destruct (accumulate results sums sequence) as [sums1|] eqn:Hacc; [|discriminate].
      cbn [mbind option_bind] in H.
      eapply IH; [done| |exact H]. by eapply accumulate_range.
Qed.

(** C6, as amended. A sequence with [poseCount = 0] (and, by the invariant,
    no matches) is not left out of the summary: one turn of the loop divides
    zero by zero for it, which makes each of the three sums of ratios not a
    number, and adds zero to the sums of match counts and to the sum of pose
    counts; the three unweighted averages of the summary are then not
    numbers, the number of sequences they are divided by being the number of
    all the sequences. *)
Theorem zero_pose_sequence_enters_the_averages (sequenceNames : list string)
    (results : gmap string SequenceResults) (s : string) :
  s ∈ sequenceNames ->
  poseCount (results_at results s) = 0 ->
  results_invariant (results_at results s) ->
  (forall sums, in_int_range (poseCountSum sums) = true ->
     accumulate results sums s =
       Some {| relocSum := F32.nan; icpSum := F32.nan; finalSum := F32.nan;
               relocRawSum := F32.add (relocRawSum sums) F32.zero;
               icpRawSum := F32.add (icpRawSum sums) F32.zero;
               finalRawSum := F32.add (finalRawSum sums) F32.zero;
               poseCountSum := poseCountSum sums |}) /\
  (forall summary, compute_averages sequenceNames results = Some summary ->
     relocAvg summary = F32.nan /\ icpAvg summary = F32.nan /\ finalAvg summary = F32.nan).
Proof.
  intros Hin Hzero Hinv. split.
  - intros sums Hrange. by apply accumulate_zero_poses.
  - intros summary H. unfold compute_averages in H.
    destruct (accumulate_all results sequenceNames Sums_initial) as [sums|] eqn:Hall;
      [|discriminate].
    cbn [mbind option_bind] in H. injection H as <-.
    destruct (accumulate_all_zero_poses _ _ _ Hin Hzero Hinv Sums_initial sums eq_refl Hall)
      as (-> & -> & ->).
    done.
Qed.

Lemma zero_pose_sequence_enters_the_averages_witness :
  exists summary,
    compute_averages ["empty"; "full"] one_full = Some summary /\
    relocAvg summary = F32.nan /\ icpAvg summary = F32.nan /\ finalAvg summary = F32.nan.
Proof.
  eexists. split; [vm_compute; reflexivity|].
  apply (proj2 (zero_pose_sequence_enters_the_averages ["empty"; "full"] one_full "empty"
                  ltac:(apply elem_of_cons; left; reflexivity)
                  ltac:(vm_compute; reflexivity)
                  ltac:(constructor; vm_compute; reflexivity))).
  vm_compute. reflexivity.
Defined.

(** The claim C6 as stated fails: with a sequence without poses next to a
    sequence of ten matching poses, the summary is not the one of the
    sequences that have poses, and its unweighted averages are not numbers. *)
Lemma zero_pose_sequence_counterexample :
  poseCount (results_at one_full "empty") = 0 /\
  with_poses one_full ["empty"; "full"] = ["full"] /\
  compute_averages ["empty"; "full"] one_full
    ≠ compute_averages (with_poses one_full ["empty"; "full"]) one_full /\
  relocAvg <$> compute_averages ["empty"; "full"] one_full = Some F32.nan /\
  relocAvg <$> compute_averages ["full"] one_full = Some (F32.of_Z 100).
Proof.
  split; [vm_compute; reflexivity|].
  split; [vm_compute; reflexivity|].
  split; [vm_compute; discriminate|].
  split; vm_compute; reflexivity.
Qed.

(* ===================================================================== *)
(** ** The CSV export *)
(* ===================================================================== *)

Lemma count_true_take_S (l : list bool) (k : nat) (b : bool) :
  l !! k = Some b -> count_true (take (S k) l) = count_true (take k l) + int_of_bool b.
Proof.
  intros H. rewrite (take_S_r _ _ _ H), count_true_app. simpl. lia.
Qed.

Lemma count_true_take_bounds (l : list bool) (k : nat) :
  0 <= count_true (take k l) <= Z.of_nat k.
Proof.
  pose proof (count_true_bounds (take k l)) as H.
  rewrite length_take in H. lia.
Qed.

(** The loop over the frames, from frame [k] on. *)
Lemma export_rows_from (r : SequenceResults) :
  results_invariant r ->
  poseCount r <= INT_MAX ->
  forall (turns k : nat),
    (k + turns = length (relocalizationResults r))%nat ->
    exists rows,
      export_rows r turns (Z.of_nat k)
        (count_true (take k (relocalizationResults r)))
        (count_true (take k (icpResults r))) = Some rows /\
      length rows = turns /\
      forall (j : nat) row, rows !! j = Some row -> row_describes r (k + j) row.
Proof.
  intros [L1 L2 L3 N1 N2 N3] Hmax turns.
  induction turns as [|turns IH]; intros k Hk.
  - exists []. split; [done|]. split; [done|]. intros j row Hj. by rewrite lookup_nil in Hj.
  - destruct (lookup_lt_is_Some_2 (relocalizationResults r) k) as [b1 Hb1]; [lia|].
    destruct (lookup_lt_is_Some_2 (icpResults r) k) as [b2 Hb2]; [lia|].
    pose proof (count_true_take_bounds (relocalizationResults r) k) as B1.
    pose proof (count_true_take_bounds (icpResults r) k) as B2.
    pose proof (int_of_bool_bounds b1) as C1.
    pose proof (int_of_bool_bounds b2) as C2.
    assert (Hmin : INT_MIN < 0) by done.
    destruct (IH (S k)) as (rows & Hrows & Hlen & Hdesc); [lia|].
    cbn [export_rows]. rewrite Nat2Z.id, Hb1, Hb2. cbn [mbind option_bind].
    rewrite !int_add_in_range by lia. cbn [mbind option_bind].
    rewrite <- (count_true_take_S _ _ _ Hb1), <- (count_true_take_S _ _ _ Hb2).
    replace (Z.of_nat k + 1) with (Z.of_nat (S k)) by lia.
    rewrite Hrows. cbn [mbind option_bind].
    eexists. split; [reflexivity|]. split; [by simpl; rewrite Hlen|].
    intros [|j] row Hj; simpl in Hj.
    + injection Hj as <-. rewrite Nat.add_0_r. by constructor.
    + replace (k + S j)%nat with (S k + j)%nat by lia. by apply Hdesc.
Qed.

Lemma export_sequence_file (stem : string) (results : gmap string SequenceResults)
    (sequence : string) :
  results_invariant (results_at results sequence) ->
  poseCount (results_at results sequence) <= INT_MAX ->
  exists file,
    export_sequence stem results sequence = Some file /\
    csv_name file = stem +:+ "_" +:+ sequence +:+ ".csv" /\
    csv_header file = csv_header_line /\
    Z.of_nat (length (csv_rows file)) = poseCount (results_at results sequence) /\
    forall (k : nat) row, csv_rows file !! k = Some row ->
      row_describes (results_at results sequence) k row.
Proof.
  intros Hinv Hmax. unfold export_sequence.
  destruct (export_rows_from _ Hinv Hmax (Z.to_nat (poseCount (results_at results sequence))) 0)
    as (rows & Hrows & Hlen & Hdesc).
  { destruct Hinv as [L1 _ _ _ _ _]. lia. }
  rewrite !take_0 in Hrows. cbn [count_true] in Hrows.
  change (Z.of_nat 0) with 0 in Hrows.
  rewrite Hrows. cbn [mbind option_bind].
  eexists. split; [reflexivity|]. cbn [csv_name csv_header csv_rows].
  split; [done|]. split; [done|]. split; [|done].
  rewrite Hlen. destruct Hinv as [L1 _ _ _ _ _]. lia.
Qed.

(** C9, as amended. When the CSV export is enabled and the results satisfy
    their invariant, one CSV file is written per sequence, in the order of
    the sequences; the file of a sequence is named after the tag and the
    sequence, starts with the header row and has one data row per frame,
    [poseCount] rows in frame order; the row of a frame carries the index of
    the frame, its position in the sequence and, for the raw and the refined
    stage only, the outcome of the frame and the running number of matches.
    (The rows also carry a running percentage per stage; nothing is stated
    about its value.) *)
Theorem csv_export_rows (opts : Options) (sequenceNames : list string)
    (results : gmap string SequenceResults) :
  onlineEvaluation opts = true ->
  (forall s, s ∈ sequenceNames ->
     results_invariant (results_at results s) /\ poseCount (results_at results s) <= INT_MAX) ->
  exists files,
    export_csv opts sequenceNames results = Some files /\
    length files = length sequenceNames /\
    forall (i : nat) s file,
      sequenceNames !! i = Some s -> files !! i = Some file ->
      csv_name file = relocTag opts +:+ "_" +:+ s +:+ ".csv" /\
      csv_header file = csv_header_line /\
      Z.of_nat (length (csv_rows file)) = poseCount (results_at results s) /\
      forall (k : nat) row, csv_rows file !! k = Some row ->
        row_describes (results_at results s) k row.
Proof.
  intros Hon Hinv. unfold export_csv. rewrite Hon.
  assert (exists files,
            Forall2 (λ s file, export_sequence (relocTag opts) results s = Some file)
                    sequenceNames files) as [files Hfiles].
  { induction sequenceNames as [|s rest IH].
    - exists []. constructor.
    - destruct IH as [files Hfiles].
      { intros s' Hs'. apply Hinv, elem_of_cons. by right. }
      destruct (Hinv s) as [Hs Hmax]; [apply elem_of_cons; by left|].
      destruct (export_sequence_file (relocTag opts) results s Hs Hmax) as (file & Hfile & _).
      exists (file :: files). by constructor. }
  exists files. split; [by apply mapM_Some_2|].
  split; [symmetry; by eapply Forall2_length|].
  intros i s file Hs Hfile.
  pose proof (Forall2_lookup_lr _ _ _ _ _ _ Hfiles Hs Hfile) as Hexp.
  destruct (Hinv s) as [Hsinv Hmax]; [by eapply list_elem_of_lookup_2|].
  destruct (export_sequence_file (relocTag opts) results s Hsinv Hmax)
    as (file' & Hfile' & Hspec).
  rewrite Hexp in Hfile'. by injection Hfile' as <-.
Qed.

Lemma csv_export_rows_witness :
  exists files,
    export_csv example_options ["office"] two_of_three = Some files /\
    length files = length ["office"] /\
    forall (i : nat) s file,
      ["office"] !! i = Some s -> files !! i = Some file ->
      csv_name file = relocTag example_options +:+ "_" +:+ s +:+ ".csv" /\
      csv_header file = csv_header_line /\
      Z.of_nat (length (csv_rows file)) = poseCount (results_at two_of_three s) /\
      forall (k : nat) row, csv_rows file !! k = Some row ->
        row_describes (results_at two_of_three s) k row.
Proof.
  apply (csv_export_rows example_options ["office"] two_of_three).
  - reflexivity.
  - intros s Hs. rewrite elem_of_cons, elem_of_nil in Hs. destruct Hs as [->|[]].
    split; [constructor; vm_compute; reflexivity | vm_compute; discriminate].
Defined.

(** The claim C9 as stated fails: in the file of a sequence of three poses
    the two percentages of the first data row are infinite, the running
    counts being divided by the frame index 0. *)
Lemma csv_first_row_counterexample :
  exists file row,
    export_csv example_options ["office"] two_of_three = Some [file] /\
    csv_rows file !! 0%nat = Some row /\
    RelocPct row = S754_infinity false /\
    ICPPct row = S754_infinity false /\
    ~ percentages_defined file.
Proof.
  eexists _, _. split; [vm_compute; reflexivity|].
  split; [reflexivity|]. split; [reflexivity|]. split; [reflexivity|].
  intros H. apply Forall_cons in H as [[H _] _]. discriminate H.
Qed.

(* ===================================================================== *)
(** ** The pose parser: what a text yields *)
(* ===================================================================== *)

(** X1. A pose file that starts with sixteen numbers is read back exactly:
    the matrix holds these sixteen numbers row after row, whatever the
    uninitialised memory held and whatever follows the sixteenth number. *)
Theorem read_pose_from_file_well_formed (garbage : nat -> float) (fs : filesystem)
    (fileName : path) (content : list token) :
  fs !! fileName = Some (Regular content) ->
  well_formed content = true ->
  read_pose_from_file garbage fs fileName
    = (Ok (map token_value (take 16 content)), [Status fileName; Read fileName]).
Proof.
  intros Hfile [Hlen Hnum]%andb_true_iff.
  rewrite (read_pose_from_file_regular garbage fs fileName content Hfile).
  f_equal. f_equal.
  do 16 (destruct content as [|[?|?] content];
         [by simpl in Hlen| |by simpl in Hnum]; simpl in Hnum).
  reflexivity.
Qed.

Lemma read_pose_from_file_well_formed_witness :
  read_pose_from_file no_garbage
      {[ "pose-000000.icp.txt" := Regular (map Number identity_pose) ]}
      "pose-000000.icp.txt"
    = (Ok (map token_value (take 16 (map Number identity_pose))),
       [Status "pose-000000.icp.txt"; Read "pose-000000.icp.txt"]).
Proof.
  apply (read_pose_from_file_well_formed no_garbage
           {[ "pose-000000.icp.txt" := Regular (map Number identity_pose) ]}
           "pose-000000.icp.txt" (map Number identity_pose)).
  - vm_compute. reflexivity.
  - vm_compute. reflexivity.
Defined.

(** X2. Whatever the text of a pose file, the matrix assembled from it
    holds the numbers read before the first failure, then the value the
    failed conversion stored (when the failure is a malformed number and not
    the end of the text), and from there on the uninitialised memory: no
    coefficient is assigned after a failure. *)
Theorem parsed_after_failure (garbage : nat -> float) (content : list token) :
  parsed garbage content
    = assigned content ++ drop (length (assigned content)) (uninitialised garbage).
Proof.
  unfold parsed, assigned.
  do 16 (destruct content as [|[?|?] content]; [reflexivity| |reflexivity]).
  reflexivity.
Qed.

(** X3. The parser throws its "File not found" error, naming the path,
    exactly when the path is not a regular file and its status is available;
    it has then only queried the status of the path and opened nothing. *)
Theorem read_pose_from_file_missing (garbage : nat -> float) (fs : filesystem)
    (fileName : path) :
  (missing fs fileName <->
     exists what t, read_pose_from_file garbage fs fileName = (Throw (runtime_error what), t)) /\
  (forall what t,
     read_pose_from_file garbage fs fileName = (Throw (runtime_error what), t) ->
     what = "File not found: " +:+ fileName /\ t = [Status fileName]).
Proof.
  unfold missing, read_pose_from_file. rewrite is_regular_cases.
  destruct (fs !! fileName) as [[content| |]|] eqn:Hfile; simpl; split.
  - split; [by intros [|]|]. intros (what & t & H). discriminate H.
  - intros what t H. discriminate H.
  - split; [|by right]. intros _. by eexists _, _.
  - by intros what t [= <- <-].
  - split; [by intros [|]|]. intros (what & t & H). discriminate H.
  - intros what t H. discriminate H.
  - split; [|by left]. intros _. by eexists _, _.
  - by intros what t [= <- <-].
Qed.

Lemma read_pose_from_file_missing_witness :
  exists what t,
    read_pose_from_file no_garbage ∅ "frame-000000.pose.txt" = (Throw (runtime_error what), t).
Proof.
  apply (proj1 (proj1 (read_pose_from_file_missing no_garbage ∅ "frame-000000.pose.txt"))).
  left. reflexivity.
Defined.

(* ===================================================================== *)
(** ** The pose matcher: further facts *)
(* ===================================================================== *)

Lemma abs_binary_round_aux (s : bool) (m e : Z) (l : location) :
  SFabs (binary_round_aux F32.prec F32.emax s m e l)
  = SFabs (binary_round_aux F32.prec F32.emax false m e l).
Proof.
  unfold binary_round_aux.
  destruct (shr_fexp _ _ m e l) as [mrs' e'].
  destruct (shr_fexp _ _ _ e' loc_Exact) as [mrs'' e''].
  destruct (shr_m mrs''); [done| |done]. by destruct (_ <=? _).
Qed.

Lemma abs_binary_normalize_opp (m e : Z) :
  SFabs (binary_normalize F32.prec F32.emax (- m) e false)
  = SFabs (binary_normalize F32.prec F32.emax m e false).
Proof.
  destruct m as [|p|p]; [done| |]; simpl; unfold binary_round;
    destruct (shl_align _ _ _) as [mz ez];
    by rewrite (abs_binary_round_aux true).
Qed.

(** Swapping the operands of a subtraction changes at most the sign. *)
Lemma abs_sub_swap (a b : float) : SFabs (F32.sub a b) = SFabs (F32.sub b a).
Proof.
  unfold F32.sub.
  destruct a as [sa|sa| |sa ma ea], b as [sb|sb| |sb mb eb]; simpl;
    try done; try (by destruct sa, sb).
  rewrite (Z.min_comm eb ea).
  rewrite <- abs_binary_normalize_opp. f_equal. f_equal. lia.
Qed.

(** A square does not depend on the sign. *)
Lemma mul_self_abs (x : float) : F32.mul x x = F32.mul (SFabs x) (SFabs x).
Proof. unfold F32.mul. by destruct x as [[]|[]| |[] m e]. Qed.

Lemma square_sub_swap (a b : float) :
  F32.mul (F32.sub a b) (F32.sub a b) = F32.mul (F32.sub b a) (F32.sub b a).
Proof.
  by rewrite (mul_self_abs (F32.sub a b)), (mul_self_abs (F32.sub b a)), (abs_sub_swap a b).
Qed.

Lemma translation_error_swap (gtPose testPose : Matrix4f) :
  translation_error gtPose testPose = translation_error testPose gtPose.
Proof.
  unfold translation_error. cbv zeta.
  by rewrite (square_sub_swap (coeff gtPose 0 3)), (square_sub_swap (coeff gtPose 1 3)),
    (square_sub_swap (coeff gtPose 2 3)).
Qed.

Lemma rotation_error_swap (acosf : float -> float) (gtPose testPose : Matrix4f) :
  rotation_error acosf gtPose testPose = rotation_error acosf testPose gtPose.
Proof.
  rewrite <- !angular_separation_rotation_error.
  unfold angular_separation, angle_axis_angle.
  by rewrite (mmul_transpose_swap (block33 gtPose) (block33 testPose)), trace_transpose.
Qed.

(** X4. The pose matcher does not care which of the two poses is the ground
    truth: swapping its arguments gives the same decision, for all poses. *)
Theorem pose_matches_swap (acosf : float -> float) (gtPose testPose : Matrix4f) :
  pose_matches acosf gtPose testPose = pose_matches acosf testPose gtPose.
Proof.
  rewrite !pose_matches_unfold.
  by rewrite (translation_error_swap gtPose testPose),
    (rotation_error_swap acosf gtPose testPose).
Qed.

Lemma coeff_take (m : Matrix4f) (i j : nat) :
  (i < 3)%nat -> (j < 4)%nat -> coeff (take 12 m) i j = coeff m i j.
Proof.
  intros Hi Hj. unfold coeff. rewrite nth_firstn.
  destruct (Nat.ltb_spec (4 * i + j) 12); [done|lia].
Qed.

(** X5. The pose matcher reads the first three rows of its poses only: two
    poses that differ in the fourth row alone, in whatever way, are judged
    alike. *)
Theorem pose_matches_first_three_rows (acosf : float -> float)
    (gtPose gtPose' testPose testPose' : Matrix4f) :
  take 12 gtPose = take 12 gtPose' ->
  take 12 testPose = take 12 testPose' ->
  pose_matches acosf gtPose testPose = pose_matches acosf gtPose' testPose'.
Proof.
  intros Hgt Htest.
  assert (Hc : forall m m' : Matrix4f, take 12 m = take 12 m' ->
            forall i j, (i < 3)%nat -> (j < 4)%nat -> coeff m i j = coeff m' i j).
  { intros m m' Hm i j Hi Hj.
    by rewrite <- (coeff_take m i j Hi Hj), <- (coeff_take m' i j Hi Hj), Hm. }
  unfold pose_matches, angular_separation, block33, block31. cbv zeta.
  rewrite !(Hc gtPose gtPose' Hgt), !(Hc testPose testPose' Htest) by lia.
  reflexivity.
Qed.

Lemma pose_matches_first_three_rows_witness :
  pose_matches acosf_at_one identity_pose (shifted_pose translationMaxError)
  = pose_matches acosf_at_one (take 12 identity_pose)
      (take 12 (shifted_pose translationMaxError) ++ [F32.nan; F32.nan; F32.nan; F32.nan]).
Proof.
  apply (pose_matches_first_three_rows acosf_at_one identity_pose (take 12 identity_pose)
           (shifted_pose translationMaxError)
           (take 12 (shifted_pose translationMaxError)
              ++ [F32.nan; F32.nan; F32.nan; F32.nan])).
  - reflexivity.
  - reflexivity.
Defined.

Lemma F32_sub_nan_r (x : float) : F32.sub x F32.nan = F32.nan.
Proof. by destruct x. Qed.

Lemma translation_error_nan (gtPose testPose : Matrix4f) (i : nat) :
  (i < 3)%nat ->
  coeff gtPose i 3 = F32.nan \/ coeff testPose i 3 = F32.nan ->
  translation_error gtPose testPose = F32.nan.
Proof.
  intros Hi Hnan. unfold translation_error. cbv zeta.
  destruct i as [|[|[|i]]]; [| | |lia];
    (destruct Hnan as [-> | ->]; rewrite ?F32_sub_nan_r; cbn [F32.sub SFsub];
     rewrite ?F32_mul_nan_l, ?F32_add_nan_l, ?F32_add_nan_r; reflexivity).
Qed.

(** X6. A pose whose translation holds a value that is not a number matches
    nothing: the matcher answers false whenever one of the three translation
    coefficients of either pose is a NaN, whatever the rotations. *)
Theorem pose_matches_nan_translation (acosf : float -> float)
    (gtPose testPose : Matrix4f) (i : nat) :
  (i < 3)%nat ->
  coeff gtPose i 3 = F32.nan \/ coeff testPose i 3 = F32.nan ->
  pose_matches acosf gtPose testPose = false.
Proof.
  intros Hi Hnan.
  by rewrite pose_matches_unfold, (translation_error_nan gtPose testPose i Hi Hnan).
Qed.

Lemma pose_matches_nan_translation_witness :
  pose_matches acosf_at_one identity_pose (shifted_pose F32.nan) = false.
Proof.
  apply (pose_matches_nan_translation acosf_at_one identity_pose (shifted_pose F32.nan) 0).
  - lia.
  - right. reflexivity.
Defined.

(* ===================================================================== *)
(** ** The sequence evaluator: exceptions and decisions *)
(* ===================================================================== *)

Lemma bind_Throw {A B : Type} (m : IO A) (f : A -> IO B) (e : exn) (t : list event) :
  (m ≫= f) = (Throw e, t) ->
  m = (Throw e, t) \/
  exists a t1 t2, m = (Ok a, t1) /\ f a = (Throw e, t2) /\ t = t1 ++ t2.
Proof.
  unfold mbind, io_bind. destruct m as [[a| | |] t1]; try discriminate.
  - destruct (f a) as [r t2] eqn:Hf. intros [= -> <-]. right. by exists a, t1, t2.
  - intros [= -> ->]. by left.
Qed.

Lemma defined_not_Throw {A : Type} (o : option A) (e : exn) (t : list event) :
  defined o ≠ (Throw e, t).
Proof. by destruct o. Qed.

Lemma status_failure_app (fs : filesystem) (e : exn) (t1 t2 : list event) :
  status_failure fs e t2 -> status_failure fs e (t1 ++ t2).
Proof.
  intros (p & He & Hp & Hlast). exists p. split; [done|]. split; [done|].
  by rewrite last_app, Hlast.
Qed.

Lemma is_regular_Throw (fs : filesystem) (p : path) (e : exn) (t : list event) :
  is_regular fs p = (Throw e, t) -> status_failure fs e t.
Proof.
  rewrite is_regular_cases.
  destruct (fs !! p) as [[content| |]|] eqn:Hp; try discriminate.
  intros [= <- <-]. by exists p.
Qed.

Section ExceptionFacts.

Variable acosf : float -> float.
Variable garbage : path -> nat -> float.
Variable fs : filesystem.

Lemma pose_file_matches_Throw (gtPose : Matrix4f) (p : path) (e : exn) (t : list event) :
  pose_file_matches acosf garbage fs gtPose p = (Throw e, t) -> status_failure fs e t.
Proof.
  destruct (pose_file_matches_cases acosf garbage fs gtPose p)
    as [[Hp ->]|[_ (b & t' & -> & _)]]; [|discriminate].
  intros [= <- <-]. by exists p.
Qed.

Lemma evaluate_frame_Throw (st : LoopState) (e : exn) (t : list event) :
  evaluate_frame acosf garbage fs st = (Throw e, t) -> status_failure fs e t.
Proof.
  unfold evaluate_frame. cbv zeta.
  intros [H|(regular & t0 & t0' & Hreg & H & ->)]%bind_Throw;
    [by eapply is_regular_Throw|].
  apply status_failure_app.
  destruct regular; [|discriminate H]. simpl in H.
  apply is_regular_true in Hreg as [content Hcontent].
  rewrite (read_pose_from_file_regular _ fs _ content Hcontent) in H.
  apply bind_Throw in H as [H|(gtPose & t1 & t1' & _ & H & ->)]; [discriminate H|].
  apply status_failure_app.
  apply bind_Throw in H as [H|(b1 & t2 & t2' & _ & H & ->)];
    [by eapply pose_file_matches_Throw|].
  apply status_failure_app.
  apply bind_Throw in H as [H|(b2 & t3 & t3' & _ & H & ->)];
    [by eapply pose_file_matches_Throw|].
  apply status_failure_app.
  apply bind_Throw in H as [H|(b3 & t4 & t4' & _ & H & ->)];
    [by eapply pose_file_matches_Throw|].
  apply status_failure_app.
  apply bind_Throw in H as [H|(n1 & ? & ? & _ & H & ->)]; [by apply defined_not_Throw in H|].
  apply bind_Throw in H as [H|(n2 & ? & ? & _ & H & ->)]; [by apply defined_not_Throw in H|].
  apply bind_Throw in H as [H|(n3 & ? & ? & _ & H & ->)]; [by apply defined_not_Throw in H|].
  apply bind_Throw in H as [H|(n4 & ? & ? & _ & H & ->)]; [by apply defined_not_Throw in H|].
  apply bind_Throw in H as [H|(g1 & ? & ? & _ & H & ->)]; [by apply defined_not_Throw in H|].
  apply bind_Throw in H as [H|(g2 & ? & ? & _ & H & ->)]; [by apply defined_not_Throw in H|].
  discriminate H.
Qed.

Lemma evaluate_loop_Throw (fuel : nat) (st : LoopState) (e : exn) (t : list event) :
  evaluate_loop acosf garbage fuel fs st = (Throw e, t) -> status_failure fs e t.
Proof.
  revert st t. induction fuel as [|fuel IH]; intros st t H; [discriminate H|].
  cbn [evaluate_loop] in H.
  apply bind_Throw in H as [H|([st'|] & t1 & t2 & _ & H & ->)].
  - by eapply evaluate_frame_Throw.
  - apply status_failure_app. by eapply IH.
  - discriminate H.
Qed.

End ExceptionFacts.

(** X7. For a fixed file system the sequence evaluator throws for one reason
    only: a status query that fails. The exception is Boost's
    [filesystem_error] for a path whose status is not available, and that
    query is the last thing the evaluator did; the parser's "File not found"
    error never leaves the evaluator, the ground truth being read only after
    it was found. *)
Theorem evaluate_sequence_throws_status_failures (acosf : float -> float)
    (garbage : path -> nat -> float) (fuel : nat) (fs : filesystem) (gtFolder relocFolder : path)
    (e : exn) (t : list event) :
  evaluate_sequence acosf garbage fuel fs gtFolder relocFolder = (Throw e, t) ->
  exists p, e = filesystem_error p /\ fs !! p = Some Inaccessible /\ last t = Some (Status p).
Proof. apply evaluate_loop_Throw. Qed.

Lemma evaluate_sequence_throws_status_failures_witness :
  exists p,
    filesystem_error "data/bad/test/frame-000000.pose.txt" = filesystem_error p /\
    two_sequences !! p = Some Inaccessible /\
    last [Status "data/bad/test/frame-000000.pose.txt"] = Some (Status p).
Proof.
  apply (evaluate_sequence_throws_status_failures acosf_at_one no_garbage_anywhere 3 two_sequences
           "data/bad/test" "out/tag_bad").
  vm_compute. reflexivity.
Defined.

Section DecisionFacts.

Variable acosf : float -> float.
Variable garbage : path -> nat -> float.
Variable fs : filesystem.
Variable gtFolder relocFolder : path.

(** Whenever the file-aware matcher answers, its answer is the decision on
    the candidate file. *)
Lemma pose_file_matches_decision (gtFile : path) (content : list token) (p : path)
    (b : bool) (t : list event) :
  fs !! gtFile = Some (Regular content) ->
  pose_file_matches acosf garbage fs (parsed (garbage gtFile) content) p = (Ok b, t) ->
  b = frame_decision acosf garbage fs gtFile p.
Proof.
  intros Hgt H. unfold frame_decision. rewrite Hgt.
  destruct (fs !! p) as [[text| |]|] eqn:Hp.
  - rewrite (pose_file_matches_regular acosf garbage fs _ p text Hp) in H. by injection H.
  - rewrite (pose_file_matches_missing acosf garbage fs _ p) in H; [by injection H|by right].
  - rewrite (pose_file_matches_inaccessible acosf garbage fs _ p Hp) in H. discriminate H.
  - rewrite (pose_file_matches_missing acosf garbage fs _ p) in H; [by injection H|by left].
Qed.

(** A turn that goes on appends the three decisions on its frame. *)
Lemma evaluate_frame_decisions (i : Z) (st st' : LoopState) (t : list event) :
  at_frame gtFolder relocFolder i st ->
  evaluate_frame acosf garbage fs st = (Ok (Some st'), t) ->
  at_frame gtFolder relocFolder (i + 1) st' /\
  relocalizationResults (res st') = relocalizationResults (res st) ++
    [frame_decision acosf garbage fs (gt_path gtFolder i) (reloc_path relocFolder i)] /\
  icpResults (res st') = icpResults (res st) ++
    [frame_decision acosf garbage fs (gt_path gtFolder i) (icp_path relocFolder i)] /\
  finalResults (res st') = finalResults (res st) ++
    [frame_decision acosf garbage fs (gt_path gtFolder i) (final_path relocFolder i)].
Proof.
  intros [Hgt Hreloc Hcount Hinv] Hstep.
  destruct (evaluate_frame_continue acosf garbage fs st st' t Hstep)
    as (c1 & c2 & c3 & Hres & Hg & Hr & _).
  split.
  { constructor.
    - by rewrite Hg, Hgt.
    - by rewrite Hr, Hreloc.
    - rewrite Hres. simpl. lia.
    - rewrite Hres. by apply results_invariant_step. }
  unfold evaluate_frame in Hstep. cbv zeta in Hstep. rewrite Hgt, Hreloc in Hstep.
  change (make_path _ "frame-%06i.pose.txt") with (gt_path gtFolder i) in Hstep.
  change (make_path _ "pose-%06i.reloc.txt") with (reloc_path relocFolder i) in Hstep.
  change (make_path _ "pose-%06i.icp.txt") with (icp_path relocFolder i) in Hstep.
  change (make_path _ "pose-%06i.final.txt") with (final_path relocFolder i) in Hstep.
  apply bind_Ok in Hstep as (regular & ? & ? & Hregular & H0 & _).
  destruct regular; simpl in H0; [|by apply ret_Ok in H0 as [? _]].
  apply is_regular_true in Hregular as [content Hcontent].
  rewrite (read_pose_from_file_regular _ fs _ content Hcontent) in H0.
  apply bind_Ok in H0 as (gtPose & ? & ? & [= <- _] & H1 & _).
  apply bind_Ok in H1 as (b1 & ? & ? & Hb1 & H2 & _).
  apply bind_Ok in H2 as (b2 & ? & ? & Hb2 & H3 & _).
  apply bind_Ok in H3 as (b3 & ? & ? & Hb3 & H4 & _).
  apply (pose_file_matches_decision _ _ _ _ _ Hcontent) in Hb1, Hb2, Hb3.
  apply bind_Ok in H4 as (n1 & ? & ? & _ & H5 & _).
  apply bind_Ok in H5 as (n2 & ? & ? & _ & H6 & _).
  apply bind_Ok in H6 as (n3 & ? & ? & _ & H7 & _).
  apply bind_Ok in H7 as (n4 & ? & ? & _ & H8 & _).
  apply bind_Ok in H8 as (g1 & ? & ? & _ & H9 & _).
  apply bind_Ok in H9 as (g2 & ? & ? & _ & H10 & _).
  apply ret_Ok in H10 as [[= <-] _]. simpl. by rewrite Hb1, Hb2, Hb3.
Qed.

Lemma decisions_S (candidate_path : Z -> path) (n : nat) :
  decisions acosf garbage fs gtFolder candidate_path (S n) =
  decisions acosf garbage fs gtFolder candidate_path n ++
    [frame_decision acosf garbage fs (gt_path gtFolder (Z.of_nat n))
       (candidate_path (Z.of_nat n))].
Proof. unfold decisions. by rewrite seq_S, map_app. Qed.

Lemma evaluate_loop_decisions (fuel : nat) :
  forall (i : nat) (st : LoopState) (r : SequenceResults) (t : list event),
    at_frame gtFolder relocFolder (Z.of_nat i) st ->
    relocalizationResults (res st)
      = decisions acosf garbage fs gtFolder (reloc_path relocFolder) i ->
    icpResults (res st) = decisions acosf garbage fs gtFolder (icp_path relocFolder) i ->
    finalResults (res st) = decisions acosf garbage fs gtFolder (final_path relocFolder) i ->
    evaluate_loop acosf garbage fuel fs st = (Ok r, t) ->
    exists n : nat,
      poseCount r = Z.of_nat n /\
      relocalizationResults r = decisions acosf garbage fs gtFolder (reloc_path relocFolder) n /\
      icpResults r = decisions acosf garbage fs gtFolder (icp_path relocFolder) n /\
      finalResults r = decisions acosf garbage fs gtFolder (final_path relocFolder) n.
Proof.
  induction fuel as [|fuel IH]; intros i st r t Hat H1 H2 H3 Hrun; [discriminate Hrun|].
  cbn [evaluate_loop] in Hrun.
  apply bind_Ok in Hrun as ([st'|] & t1 & t2 & Hstep & Hrest & _).
  - destruct (evaluate_frame_decisions _ _ _ _ Hat Hstep) as (Hat' & D1 & D2 & D3).
    replace (Z.of_nat i + 1) with (Z.of_nat (S i)) in Hat' by lia.
    apply (IH (S i) st' r t2 Hat'); [| | |done].
    + by rewrite decisions_S, D1, H1.
    + by rewrite decisions_S, D2, H2.
    + by rewrite decisions_S, D3, H3.
  - apply ret_Ok in Hrest as [<- _]. exists i. by destruct Hat.
Qed.

End DecisionFacts.

(** X8. Every result the sequence evaluator returns lists, for each of its
    [poseCount] frames in frame order and for each of the three stages, the
    decision on that frame: the pose matcher's decision on the matrices read
    from the ground-truth file and from the stage's file of the frame, and no
    match when the stage's file is not a regular file. Each matrix is the one
    assembled from the text of its file over what the uninitialised memory
    held at that call, which may differ from call to call: a file with fewer
    than sixteen numbers is decided on what the memory held. *)
Theorem evaluate_sequence_decisions (acosf : float -> float) (garbage : path -> nat -> float)
    (fuel : nat) (fs : filesystem) (gtFolder relocFolder : path)
    (r : SequenceResults) (t : list event) :
  evaluate_sequence acosf garbage fuel fs gtFolder relocFolder = (Ok r, t) ->
  exists n : nat,
    poseCount r = Z.of_nat n /\
    relocalizationResults r = decisions acosf garbage fs gtFolder (reloc_path relocFolder) n /\
    icpResults r = decisions acosf garbage fs gtFolder (icp_path relocFolder) n /\
    finalResults r = decisions acosf garbage fs gtFolder (final_path relocFolder) n.
Proof.
  apply (evaluate_loop_decisions acosf garbage fs gtFolder relocFolder fuel 0); [|done..].
  constructor; [done|done|done|apply results_invariant_default].
Qed.

Lemma evaluate_sequence_decisions_witness :
  exists n : nat,
    2 = Z.of_nat n /\
    [false; false]
      = decisions acosf_at_one stale_ground_truth empty_icp_files "gt" (reloc_path "reloc") n /\
    [true; true]
      = decisions acosf_at_one stale_ground_truth empty_icp_files "gt" (icp_path "reloc") n /\
    [false; false]
      = decisions acosf_at_one stale_ground_truth empty_icp_files "gt" (final_path "reloc") n.
Proof.
  eapply (evaluate_sequence_decisions acosf_at_one stale_ground_truth 3 empty_icp_files
            "gt" "reloc"
            {| poseCount := 2; validPosesAfterReloc := 0; validPosesAfterICP := 2;
               validFinalPoses := 0; relocalizationResults := [false; false];
               icpResults := [true; true]; finalResults := [false; false] |}).
  vm_compute. reflexivity.
Defined.

Lemma count_true_replicate_false (n : nat) : count_true (replicate n false) = 0.
Proof. induction n as [|n IH]; [done|]. simpl. by rewrite IH. Qed.

Lemma replicate_snoc {A : Type} (n : nat) (x : A) :
  replicate (S n) x = replicate n x ++ [x].
Proof. induction n as [|n IH]; [done|]. simpl. by rewrite <- IH. Qed.

Lemma decisions_missing (acosf : float -> float) (garbage : path -> nat -> float) (fs : filesystem)
    (gtFolder : path) (candidate_path : Z -> path) (n : nat) :
  (forall i : nat, (i < n)%nat -> missing fs (candidate_path (Z.of_nat i))) ->
  decisions acosf garbage fs gtFolder candidate_path n = replicate n false.
Proof.
  induction n as [|n IH]; intros Hmiss; [done|].
  rewrite decisions_S, replicate_snoc, IH by (intros i Hi; apply Hmiss; lia).
  f_equal. f_equal. unfold frame_decision.
  destruct (fs !! gt_path gtFolder (Z.of_nat n)) as [[gt| |]|]; [|done..].
  by destruct (Hmiss n) as [-> | ->]; [lia| |].
Qed.

(** X9. A sequence whose ground-truth files are there for the frames 0 to
    n-1 and missing for frame n, and that has no result file at all for these
    frames, is evaluated to [poseCount = n], three match counts of zero and
    three sequences of n times false. *)
Theorem evaluate_sequence_without_results (acosf : float -> float) (garbage : path -> nat -> float)
    (fs : filesystem) (gtFolder relocFolder : path) (n fuel : nat) :
  Z.of_nat n <= INT_MAX ->
  (forall i : nat, (i < n)%nat ->
     exists content, fs !! gt_path gtFolder (Z.of_nat i) = Some (Regular content)) ->
  missing fs (gt_path gtFolder (Z.of_nat n)) ->
  (forall (i : nat) p, (i < n)%nat -> p ∈ result_paths relocFolder (Z.of_nat i) ->
     missing fs p) ->
  (n < fuel)%nat ->
  (evaluate_sequence acosf garbage fuel fs gtFolder relocFolder).1 =
    Ok {| poseCount := Z.of_nat n;
          validPosesAfterReloc := 0; validPosesAfterICP := 0; validFinalPoses := 0;
          relocalizationResults := replicate n false;
          icpResults := replicate n false;
          finalResults := replicate n false |}.
Proof.
  intros Hmax Hpresent Hgap Hnone Hfuel.
  unfold evaluate_sequence.
  set (st0 := {| gtPathGenerator := SequentialPathGenerator_new gtFolder;
                 relocPathGenerator := SequentialPathGenerator_new relocFolder;
                 res := SequenceResults_default |}).
  assert (Hat : at_frame gtFolder relocFolder (Z.of_nat 0) st0).
  { constructor; [done|done|done|apply results_invariant_default]. }
  destruct (evaluate_loop_run acosf garbage fs gtFolder relocFolder n Hmax Hpresent Hgap)
    with (k := n) (i := 0%nat) (fuel := fuel) (st := st0)
    as (r & segments & Hrun & Hcount & _); [|done|done|done|].
  { intros i p Hi Hp. by destruct (Hnone i p Hi Hp) as [-> | ->]. }
  destruct (evaluate_loop_invariant acosf garbage fuel fs st0 r _ results_invariant_default
              ltac:(done) Hrun) as [[_ _ _ N1 N2 N3] _].
  destruct (evaluate_loop_decisions acosf garbage fs gtFolder relocFolder fuel 0 st0 r _
              Hat eq_refl eq_refl eq_refl Hrun) as (n' & Hn' & D1 & D2 & D3).
  assert (n' = n) as -> by lia.
  rewrite decisions_missing in D1, D2, D3
    by (intros i Hi; apply (Hnone i); [done|];
        first [apply reloc_path_result|apply icp_path_result|apply final_path_result]).
  rewrite Hrun. simpl.
  destruct r as [pc v1 v2 v3 l1 l2 l3]. simpl in *. subst.
  by rewrite count_true_replicate_false.
Qed.

Lemma evaluate_sequence_without_results_witness :
  (evaluate_sequence acosf_at_one no_garbage_anywhere 3 two_frames "gt" "elsewhere").1 =
    Ok {| poseCount := Z.of_nat 2;
          validPosesAfterReloc := 0; validPosesAfterICP := 0; validFinalPoses := 0;
          relocalizationResults := replicate 2 false;
          icpResults := replicate 2 false;
          finalResults := replicate 2 false |}.
Proof.
  apply (evaluate_sequence_without_results acosf_at_one no_garbage_anywhere two_frames
           "gt" "elsewhere" 2 3).
  - vm_compute. discriminate.
  - intros [|[|i]] Hi; [eexists; vm_compute; reflexivity ..|lia].
  - left. vm_compute. reflexivity.
  - intros [|[|i]] p Hi Hp; [| |lia];
      unfold result_paths in Hp; rewrite !elem_of_cons, elem_of_nil in Hp;
      destruct Hp as [->|[->|[->|[]]]]; left; vm_compute; reflexivity.
  - lia.
Defined.

(** X10. In every result the sequence evaluator returns, each of the three
    match counts lies between zero and [poseCount], and [poseCount] is at
    most the largest [int]. *)
Theorem evaluate_sequence_counts_bounded (acosf : float -> float) (garbage : path -> nat -> float)
    (fuel : nat) (fs : filesystem) (gtFolder relocFolder : path)
    (r : SequenceResults) (t : list event) :
  evaluate_sequence acosf garbage fuel fs gtFolder relocFolder = (Ok r, t) ->
  0 <= validPosesAfterReloc r <= poseCount r /\
  0 <= validPosesAfterICP r <= poseCount r /\
  0 <= validFinalPoses r <= poseCount r /\
  poseCount r <= INT_MAX.
Proof.
  intros Hrun.
  destruct (evaluate_loop_invariant acosf garbage fuel fs
              {| gtPathGenerator := SequentialPathGenerator_new gtFolder;
                 relocPathGenerator := SequentialPathGenerator_new relocFolder;
                 res := SequenceResults_default |} r t results_invariant_default
              ltac:(done) Hrun) as [[L1 L2 L3 N1 N2 N3] Hmax].
  pose proof (count_true_bounds (relocalizationResults r)).
  pose proof (count_true_bounds (icpResults r)).
  pose proof (count_true_bounds (finalResults r)).
  lia.
Qed.

Lemma evaluate_sequence_counts_bounded_witness :
  0 <= validPosesAfterReloc (sequence_with 2 1) <= poseCount (sequence_with 2 1) /\
  0 <= validPosesAfterICP (sequence_with 2 0) <= poseCount (sequence_with 2 1) /\
  0 <= validFinalPoses (sequence_with 2 0) <= poseCount (sequence_with 2 1) /\
  poseCount (sequence_with 2 1) <= INT_MAX.
Proof.
  eapply (evaluate_sequence_counts_bounded acosf_at_one no_garbage_anywhere 3 two_frames "gt" "reloc"
           {| poseCount := 2; validPosesAfterReloc := 1; validPosesAfterICP := 0;
              validFinalPoses := 0; relocalizationResults := [true; false];
              icpResults := [false; false]; finalResults := [false; false] |}).
  vm_compute. reflexivity.
Defined.

(* ===================================================================== *)
(** ** The summary: sequences without poses *)
(* ===================================================================== *)

Lemma binary_round_aux_sign (s : bool) (m e : Z) (l : location) :
  match binary_round_aux F32.prec F32.emax s m e l with
  | S754_zero s' | S754_infinity s' | S754_finite s' _ _ => s' = s
  | S754_nan => True
  end.
Proof.
  unfold binary_round_aux.
  destruct (shr_fexp _ _ m e l) as [mrs' e'].
  destruct (shr_fexp _ _ _ e' loc_Exact) as [mrs'' e''].
  destruct (shr_m mrs''); [done| |done]. by destruct (_ <=? _).
Qed.

Lemma binary_round_nonneg (m : positive) (e : Z) :
  nonneg_or_nan (binary_round F32.prec F32.emax false m e).
Proof.
  unfold binary_round. destruct (shl_align _ _ _) as [mz ez].
  apply (binary_round_aux_sign false).
Qed.

Lemma of_Z_nonneg (n : Z) : 0 <= n -> nonneg_or_nan (F32.of_Z n).
Proof.
  intros Hn. unfold F32.of_Z. destruct n as [|p|p]; [done| |lia].
  apply binary_round_nonneg.
Qed.

Lemma add_nonneg (x y : float) :
  nonneg_or_nan x -> nonneg_or_nan y -> nonneg_or_nan (F32.add x y).
Proof.
  unfold F32.add.
  destruct x as [sx|sx| |sx mx ex], y as [sy|sy| |sy my ey]; simpl;
    intros Hx Hy; subst; try done.
  apply binary_round_nonneg.
Qed.

Lemma add_zero_nonneg (x : float) : nonneg_or_nan x -> F32.add x F32.zero = x.
Proof. destruct x as [[]|[]| |[] m e]; simpl; intros H; done || discriminate H. Qed.

Lemma fold_add_nonneg (l : list float) (x : float) :
  Forall nonneg_or_nan l -> nonneg_or_nan x -> nonneg_or_nan (fold_left F32.add l x).
Proof.
  revert x. induction l as [|y l IH]; intros x Hl Hx; [done|].
  apply Forall_cons in Hl as [Hy Hl]. simpl. apply IH; [done|]. by apply add_nonneg.
Qed.

Section WithPoses.

Variable results : gmap string SequenceResults.
Variable count : SequenceResults -> Z.

(** A sum of match counts is the same with and without the sequences that
    have no pose, provided these have no match either. *)
Lemma raw_sum_with_poses (sequenceNames : list string) :
  forall x : float,
    nonneg_or_nan x ->
    (forall s, s ∈ sequenceNames ->
       0 <= count (results_at results s) /\
       (poseCount (results_at results s) = 0 -> count (results_at results s) = 0)) ->
    fold_left F32.add
      (map (λ r, F32.of_Z (count r)) (map (results_at results) sequenceNames)) x =
    fold_left F32.add
      (map (λ r, F32.of_Z (count r))
           (map (results_at results) (with_poses results sequenceNames))) x.
Proof.
  induction sequenceNames as [|s rest IH]; intros x Hx Hcount; [done|].
  destruct (Hcount s) as [Hpos Hzero]; [apply elem_of_cons; by left|].
  assert (Hrest : forall s', s' ∈ rest ->
            0 <= count (results_at results s') /\
            (poseCount (results_at results s') = 0 -> count (results_at results s') = 0))
    by (intros s' Hs'; apply Hcount, elem_of_cons; by right).
  unfold with_poses. rewrite filter_cons. fold (with_poses results rest).
  destruct (decide (poseCount (results_at results s) ≠ 0)) as [Hne|Heq].
  - cbn [map fold_left]. apply IH; [|done]. apply add_nonneg; [done|by apply of_Z_nonneg].
  - cbn [map fold_left]. rewrite Hzero by lia.
    change (F32.of_Z 0) with F32.zero. rewrite add_zero_nonneg by done. by apply IH.
Qed.

End WithPoses.

Lemma int_sum_with_poses (results : gmap string SequenceResults) (sequenceNames : list string) :
  int_sum (map poseCount (map (results_at results) (with_poses results sequenceNames)))
  = int_sum (map poseCount (map (results_at results) sequenceNames)).
Proof.
  induction sequenceNames as [|s rest IH]; [done|].
  unfold with_poses. rewrite filter_cons. fold (with_poses results rest).
  destruct (decide (poseCount (results_at results s) ≠ 0)) as [Hne|Heq];
    cbn [map]; rewrite !int_sum_cons; lia.
Qed.

Lemma invariant_counts (r : SequenceResults) :
  results_invariant r ->
  0 <= poseCount r /\
  (0 <= validPosesAfterReloc r /\ (poseCount r = 0 -> validPosesAfterReloc r = 0)) /\
  (0 <= validPosesAfterICP r /\ (poseCount r = 0 -> validPosesAfterICP r = 0)) /\
  (0 <= validFinalPoses r /\ (poseCount r = 0 -> validFinalPoses r = 0)).
Proof.
  intros [L1 L2 L3 N1 N2 N3].
  pose proof (count_true_bounds (relocalizationResults r)).
  pose proof (count_true_bounds (icpResults r)).
  pose proof (count_true_bounds (finalResults r)).
  lia.
Qed.

Lemma with_poses_subset (results : gmap string SequenceResults) (sequenceNames : list string)
    (s : string) :
  s ∈ with_poses results sequenceNames -> s ∈ sequenceNames.
Proof. unfold with_poses. by intros [_ ?]%list_elem_of_filter. Qed.

(** X11. Sequences without poses do not change the weighted averages: for
    results that satisfy their invariant and whose pose counts add up to an
    [int], the three weighted averages of the summary are those of the
    summary computed over the sequences that have poses only. *)
Theorem weighted_averages_skip_empty_sequences (sequenceNames : list string)
    (results : gmap string SequenceResults) :
  (forall s, s ∈ sequenceNames -> results_invariant (results_at results s)) ->
  int_sum (map poseCount (map (results_at results) sequenceNames)) <= INT_MAX ->
  exists all_sequences sequences_with_poses,
    compute_averages sequenceNames results = Some all_sequences /\
    compute_averages (with_poses results sequenceNames) results = Some sequences_with_poses /\
    relocWeightedAvg all_sequences = relocWeightedAvg sequences_with_poses /\
    icpWeightedAvg all_sequences = icpWeightedAvg sequences_with_poses /\
    finalWeightedAvg all_sequences = finalWeightedAvg sequences_with_poses.
Proof.
  intros Hinv Hmax.
  assert (Hpos : forall names, (forall s, s ∈ names -> s ∈ sequenceNames) ->
            Forall (λ r, 0 <= poseCount r) (map (results_at results) names)).
  { intros names Hsub. apply Forall_fmap, Forall_forall. intros s Hs. simpl.
    by destruct (invariant_counts _ (Hinv s (Hsub s Hs))) as [? _]. }
  unfold compute_averages.
  rewrite (accumulate_all_sums results sequenceNames Sums_initial);
    [|by apply Hpos|done|simpl; lia].
  rewrite (accumulate_all_sums results (with_poses results sequenceNames) Sums_initial);
    [|apply Hpos, with_poses_subset|done|simpl; rewrite int_sum_with_poses; lia].
  cbn [mbind option_bind]. eexists _, _. split; [reflexivity|]. split; [reflexivity|].
  cbn [relocWeightedAvg icpWeightedAvg finalWeightedAvg relocRawSum icpRawSum finalRawSum
       poseCountSum Sums_initial].
  rewrite int_sum_with_poses.
  rewrite <- (raw_sum_with_poses results validPosesAfterReloc sequenceNames F32.zero),
    <- (raw_sum_with_poses results validPosesAfterICP sequenceNames F32.zero),
    <- (raw_sum_with_poses results validFinalPoses sequenceNames F32.zero);
    [done|done| |done| |done|];
    intros s Hs; destruct (invariant_counts _ (Hinv s Hs)) as (_ & ? & ? & ?); done.
Qed.

Lemma weighted_averages_skip_empty_sequences_witness :
  exists all_sequences sequences_with_poses,
    compute_averages ["empty"; "full"] one_full = Some all_sequences /\
    compute_averages (with_poses one_full ["empty"; "full"]) one_full
      = Some sequences_with_poses /\
    relocWeightedAvg all_sequences = relocWeightedAvg sequences_with_poses /\
    icpWeightedAvg all_sequences = icpWeightedAvg sequences_with_poses /\
    finalWeightedAvg all_sequences = finalWeightedAvg sequences_with_poses.
Proof.
  apply (weighted_averages_skip_empty_sequences ["empty"; "full"] one_full).
  - intros s Hs. rewrite !elem_of_cons, elem_of_nil in Hs.
    destruct Hs as [->|[->|[]]]; constructor; vm_compute; reflexivity.
  - vm_compute. discriminate.
Defined.

Lemma fold_add_nan (l : list float) : fold_left F32.add l F32.nan = F32.nan.
Proof. induction l as [|y l IH]; [done|]. simpl. exact IH. Qed.

Lemma unweighted_average_no_poses (count : SequenceResults -> Z) (rs : list SequenceResults) :
  Forall (λ r, count r = 0 /\ poseCount r = 0) rs ->
  unweighted_average count rs = F32.nan.
Proof.
  unfold unweighted_average, float_sum. intros Hall.
  destruct Hall as [|r rs [Hc Hp] Hall]; [reflexivity|].
  cbn [map fold_left]. rewrite Hc, Hp.
  change (F32.add F32.zero (F32.div (F32.of_Z 0) (F32.of_Z 0))) with F32.nan.
  by rewrite fold_add_nan.
Qed.

Lemma weighted_average_no_poses (count : SequenceResults -> Z) (rs : list SequenceResults) :
  Forall (λ r, count r = 0 /\ poseCount r = 0) rs ->
  weighted_average count rs = F32.nan.
Proof.
  unfold weighted_average, float_sum. intros Hall.
  assert (fold_left F32.add (map (λ r, F32.of_Z (count r)) rs) F32.zero = F32.zero
          /\ int_sum (map poseCount rs) = 0) as [-> ->]; [|reflexivity].
  induction Hall as [|r rs [Hc Hp] Hall [IH1 IH2]]; [done|].
  cbn [map fold_left]. rewrite int_sum_cons, Hc, Hp, IH2. split; [|done].
  change (F32.add F32.zero (F32.of_Z 0)) with F32.zero. exact IH1.
Qed.

(** X12. When no sequence has a pose, and in particular when there is no
    sequence at all, every one of the six averages of the summary is not a
    number: each is a zero divided by zero. *)
Theorem averages_without_poses (sequenceNames : list string)
    (results : gmap string SequenceResults) :
  (forall s, s ∈ sequenceNames ->
     poseCount (results_at results s) = 0 /\ results_invariant (results_at results s)) ->
  compute_averages sequenceNames results = Some Summary_nan.
Proof.
  intros Hnone.
  assert (Hzero : forall count : SequenceResults -> Z,
            (forall r, results_invariant r -> poseCount r = 0 -> count r = 0) ->
            Forall (λ r, count r = 0 /\ poseCount r = 0)
                   (map (results_at results) sequenceNames)).
  { intros count Hcount. apply Forall_fmap, Forall_forall. intros s Hs. simpl.
    destruct (Hnone s Hs) as [Hp Hinv]. split; [by apply Hcount|done]. }
  assert (Hreloc := Hzero validPosesAfterReloc
            ltac:(intros r Hr Hp; by apply (invariant_counts r Hr))).
  assert (Hicp := Hzero validPosesAfterICP
            ltac:(intros r Hr Hp; by apply (invariant_counts r Hr))).
  assert (Hfinal := Hzero validFinalPoses
            ltac:(intros r Hr Hp; by apply (invariant_counts r Hr))).
  unfold compute_averages.
  rewrite (accumulate_all_sums results sequenceNames Sums_initial).
  - cbn [mbind option_bind]. f_equal.
    pose proof (unweighted_average_no_poses _ _ Hreloc) as U1.
    pose proof (unweighted_average_no_poses _ _ Hicp) as U2.
    pose proof (unweighted_average_no_poses _ _ Hfinal) as U3.
    pose proof (weighted_average_no_poses _ _ Hreloc) as W1.
    pose proof (weighted_average_no_poses _ _ Hicp) as W2.
    pose proof (weighted_average_no_poses _ _ Hfinal) as W3.
    unfold unweighted_average, weighted_average, float_sum in *.
    rewrite length_map in U1, U2, U3.
    cbn [relocSum icpSum finalSum relocRawSum icpRawSum finalRawSum poseCountSum
         Sums_initial]. rewrite Z.add_0_l.
    unfold Summary_nan. by rewrite U1, U2, U3, W1, W2, W3.
  - eapply Forall_impl; [exact Hreloc|]. intros r [_ ->]. done.
  - done.
  - assert (int_sum (map poseCount (map (results_at results) sequenceNames)) = 0) as ->;
      [|done].
    clear -Hreloc. induction Hreloc as [|r rs [_ Hp] _ IH]; [done|].
    cbn [map]. rewrite int_sum_cons, Hp, IH. done.
Qed.

Lemma averages_without_poses_witness :
  compute_averages ["empty"; "missing"] one_full = Some Summary_nan.
Proof.
  apply (averages_without_poses ["empty"; "missing"] one_full).
  intros s Hs. rewrite !elem_of_cons, elem_of_nil in Hs.
  destruct Hs as [->|[->|[]]]; (split; [|constructor]; vm_compute; reflexivity).
Defined.

(* ===================================================================== *)
(** ** The driver and the table *)
(* ===================================================================== *)

Lemma evaluate_sequences_Ok_returns (acosf : float -> float) (garbage : path -> nat -> float)
    (fuel : nat) (fs : filesystem) (opts : Options) (sequenceNames : list string) :
  forall (results0 results : gmap string SequenceResults) (t : list event),
    evaluate_sequences acosf garbage fuel fs opts sequenceNames results0 = (Ok results, t) ->
    forall s, s ∈ sequenceNames -> returns (run_of acosf garbage fuel fs opts s).
Proof.
  induction sequenceNames as [|sequence rest IH]; intros results0 results t H s Hs.
  - by apply elem_of_nil in Hs.
  - cbn [evaluate_sequences] in H.
    apply bind_Ok in H as ([] & ? & ? & _ & H1 & _).
    apply bind_Ok in H1 as (results1 & ? & ? & Htry & H2 & _).
    apply elem_of_cons in Hs as [->|Hs]; [|by eapply IH].
    unfold returns, run_of.
    apply try_catch_inv in Htry as [[t' Hok]|(e & t1 & t2 & Hthrow & _)].
    + apply bind_Ok in Hok as (r & ? & ? & -> & _). done.
    + apply bind_Throw in Hthrow as [Hthrow|(r & ? & ? & -> & _)]; [|done].
      destruct (evaluate_sequence _ _ _ _ _ _) as [[r|e'| |] t'']; simpl in *; try done.
Qed.

(** X13. In a run of the driver that completes, a sequence whose evaluation
    threw is shown in the table with zero poses and three percentages that
    are not numbers (zero divided by zero), a sequence that was evaluated
    with the pose count of its result. *)
Theorem table_rows_of_a_run (acosf : float -> float) (garbage : path -> nat -> float)
    (fuel : nat) (fs : filesystem) (opts : Options) (sequenceNames : list string)
    (results : gmap string SequenceResults) (t : list event) (s : string) :
  evaluate_sequences acosf garbage fuel fs opts sequenceNames ∅ = (Ok results, t) ->
  s ∈ sequenceNames ->
  match (run_of acosf garbage fuel fs opts s).1 with
  | Ok r => row_poses (table_row results s) = poseCount r
  | _ => table_row results s =
           {| row_sequence := s; row_poses := 0; row_relocPct := F32.nan;
              row_icpPct := F32.nan; row_finalPct := F32.nan |}
  end.
Proof.
  intros Hrun Hs.
  pose proof (evaluate_sequences_Ok_returns _ _ _ _ _ _ _ _ _ Hrun) as Hret.
  destruct (evaluate_sequences_run acosf garbage fuel fs opts sequenceNames ∅ Hret)
    as (results' & Hrun' & Hlookup).
  rewrite Hrun in Hrun'. injection Hrun' as <- _.
  specialize (Hlookup s). rewrite decide_True in Hlookup by done.
  unfold table_row, results_at. rewrite lookup_total_alt, Hlookup.
  destruct (run_of acosf garbage fuel fs opts s).1 as [r|e| |]; by rewrite ?lookup_empty.
Qed.

Lemma table_rows_of_a_run_witness :
  table_row good_only "bad" =
    {| row_sequence := "bad"; row_poses := 0; row_relocPct := F32.nan;
       row_icpPct := F32.nan; row_finalPct := F32.nan |}.
Proof.
  exact (table_rows_of_a_run acosf_at_one no_garbage_anywhere 3 two_sequences example_options
           ["bad"; "good"] good_only
           (concat (map (sequence_trace acosf_at_one no_garbage_anywhere 3 two_sequences
                           example_options) ["bad"; "good"]))
           "bad" ltac:(vm_compute; reflexivity)
           ltac:(apply elem_of_cons; left; reflexivity)).
Defined.


(* ===================================================================== *)
(** ** The CSV export: further facts *)
(* ===================================================================== *)

Lemma csv_file_name_inj (stem : string) : Inj (=) (=) (csv_file_name stem).
Proof.
  intros s1 s2 H. unfold csv_file_name in H.
  apply list_ascii_of_string_inj.
  apply (f_equal list_ascii_of_string) in H.
  rewrite !list_ascii_of_string_app in H.
  by apply app_inv_head, app_inv_head, app_inv_tail in H.
Qed.

Lemma export_sequence_name (stem : string) (results : gmap string SequenceResults)
    (sequence : string) (file : CsvFile) :
  export_sequence stem results sequence = Some file ->
  csv_name file = csv_file_name stem sequence.
Proof.
  unfold export_sequence.
  destruct (export_rows _ _ _ _ _) as [rows|]; [|discriminate].
  by intros [= <-].
Qed.

(** X14. The CSV files of a run have pairwise different names when the
    sequences have pairwise different names: no sequence overwrites the file
    of another. Without the export option no file is written. *)
Theorem csv_files_distinct (opts : Options) (sequenceNames : list string)
    (results : gmap string SequenceResults) (files : list CsvFile) :
  export_csv opts sequenceNames results = Some files ->
  (onlineEvaluation opts = false -> files = []) /\
  (onlineEvaluation opts = true ->
     map csv_name files = map (csv_file_name (relocTag opts)) sequenceNames) /\
  (NoDup sequenceNames -> NoDup (map csv_name files)).
Proof.
  unfold export_csv. destruct (onlineEvaluation opts).
  - intros Hfiles%mapM_Some_1.
    assert (Hnames : map csv_name files = map (csv_file_name (relocTag opts)) sequenceNames).
    { induction Hfiles as [|s file names files' Hfile _ IH]; [done|].
      cbn [map]. by rewrite IH, (export_sequence_name _ _ _ _ Hfile). }
    split; [done|]. split; [done|]. intros Hnodup. rewrite Hnames.
    pose proof (csv_file_name_inj (relocTag opts)) as Hinj.
    by apply (NoDup_fmap_2 (csv_file_name (relocTag opts))).
  - intros [= <-]. split; [done|]. split; [done|]. intros _. constructor.
Qed.

Lemma csv_files_distinct_witness :
  NoDup (map csv_name
           [ {| csv_name := "tag_office.csv"; csv_header := csv_header_line; csv_rows := [] |};
             {| csv_name := "tag_kitchen.csv"; csv_header := csv_header_line;
                csv_rows := [] |} ]).
Proof.
  apply (csv_files_distinct example_options ["office"; "kitchen"] ∅).
  - vm_compute. reflexivity.
  - apply NoDup_cons. split; [|apply NoDup_singleton].
    intros H%list_elem_of_singleton. discriminate H.
Defined.

(** X15. In the CSV file of a sequence whose results satisfy their
    invariant, the running match counts start at the outcome of the first
    frame, go up from one row to the next by the outcome of that next frame
    (by one for a match, by nothing otherwise), and end, in the last row, at
    the match counts of the sequence. *)
Theorem csv_running_counts (stem : string) (results : gmap string SequenceResults)
    (sequence : string) (file : CsvFile) :
  results_invariant (results_at results sequence) ->
  poseCount (results_at results sequence) <= INT_MAX ->
  export_sequence stem results sequence = Some file ->
  (forall row, csv_rows file !! 0%nat = Some row ->
     RelocSum row = int_of_bool (RelocSuccess row) /\
     ICPSum row = int_of_bool (ICPSuccess row)) /\
  (forall (k : nat) row row',
     csv_rows file !! k = Some row -> csv_rows file !! S k = Some row' ->
     RelocSum row' = RelocSum row + int_of_bool (RelocSuccess row') /\
     ICPSum row' = ICPSum row + int_of_bool (ICPSuccess row')) /\
  (forall row, last (csv_rows file) = Some row ->
     RelocSum row = validPosesAfterReloc (results_at results sequence) /\
     ICPSum row = validPosesAfterICP (results_at results sequence)).
Proof.
  intros Hinv Hmax Hfile.
  destruct (export_sequence_file stem results sequence Hinv Hmax)
    as (file' & Hfile' & _ & _ & Hlen & Hrows).
  rewrite Hfile in Hfile'. injection Hfile' as <-.
  set (r := results_at results sequence) in *.
  split; [|split].
  - intros row Hrow. destruct (Hrows 0%nat row Hrow) as [_ _ R1 R2 I1 I2].
    rewrite R2, I2, (count_true_take_S _ _ _ R1), (count_true_take_S _ _ _ I1).
    by rewrite !take_0.
  - intros k row row' Hrow Hrow'.
    destruct (Hrows k row Hrow) as [_ _ _ R2 _ I2].
    destruct (Hrows (S k) row' Hrow') as [_ _ R1' R2' I1' I2'].
    by rewrite R2', I2', (count_true_take_S _ _ _ R1'), (count_true_take_S _ _ _ I1'), R2, I2.
  - intros row Hrow. rewrite last_lookup in Hrow.
    destruct (Hrows _ row Hrow) as [_ _ R1 R2 I1 I2].
    destruct Hinv as [L1 L2 _ N1 N2 _]. fold r in L1, L2, N1, N2.
    apply lookup_lt_Some in Hrow.
    rewrite R2, I2, N1, N2, !take_ge; [done| |]; lia.
Qed.

Lemma csv_running_counts_witness :
  RelocSum first_row = validPosesAfterReloc (results_at one_pose "s") /\
  ICPSum first_row = validPosesAfterICP (results_at one_pose "s").
Proof.
  apply (proj2 (proj2 (csv_running_counts "tag" one_pose "s"
    {| csv_name := "tag_s.csv"; csv_header := csv_header_line; csv_rows := [first_row] |}
    ltac:(constructor; vm_compute; reflexivity)
    ltac:(vm_compute; discriminate)
    ltac:(vm_compute; reflexivity)))).
  reflexivity.
Defined.


(** X16. In every CSV file with at least one data row, the two percentages
    of the first row are not finite numbers: the running count is divided by
    the frame index 0, which gives an infinity when the first frame matched
    and a NaN when it did not. *)
Theorem csv_first_row_percentages (stem : string) (results : gmap string SequenceResults)
    (sequence : string) (file : CsvFile) (row : CsvRow) :
  export_sequence stem results sequence = Some file ->
  csv_rows file !! 0%nat = Some row ->
  RelocPct row = (if RelocSuccess row then S754_infinity false else F32.nan) /\
  ICPPct row = (if ICPSuccess row then S754_infinity false else F32.nan).
Proof.
  unfold export_sequence.
  destruct (export_rows _ _ _ _ _) as [rows|] eqn:Hrows; [|discriminate].
  intros [= <-]. simpl.
  destruct (Z.to_nat (poseCount (results_at results sequence))) as [|turns].
  - injection Hrows as <-. discriminate.
  - cbn [export_rows] in Hrows.
    destruct (relocalizationResults _ !! _) as [b1|]; [|discriminate].
    destruct (icpResults _ !! _) as [b2|]; [|discriminate].
    cbn [mbind option_bind] in Hrows.
    rewrite !int_add_in_range in Hrows by (destruct b1, b2; done).
    cbn [mbind option_bind] in Hrows.
    destruct (export_rows _ turns _ _ _) as [rest|]; [|discriminate].
    injection Hrows as <-. intros [= <-]. simpl. by destruct b1, b2.
Qed.

Lemma csv_first_row_percentages_witness :
  RelocPct first_row = (if RelocSuccess first_row then S754_infinity false else F32.nan) /\
  ICPPct first_row = (if ICPSuccess first_row then S754_infinity false else F32.nan).
Proof.
  apply (csv_first_row_percentages "tag" one_pose "s"
           {| csv_name := "tag_s.csv"; csv_header := csv_header_line;
              csv_rows := [first_row] |} first_row).
  - vm_compute. reflexivity.
  - reflexivity.
Defined.

(** X17. The CSV export is well defined on the results of every run of the
    driver that completes: no vector is read past its end and no counter
    overflows, and one file per sequence is produced when the export is
    enabled, whichever sequences failed. *)
Theorem csv_export_after_driver (acosf : float -> float) (garbage : path -> nat -> float)
    (fuel : nat) (fs : filesystem) (opts : Options) (sequenceNames : list string)
    (results : gmap string SequenceResults) (t : list event) :
  evaluate_sequences acosf garbage fuel fs opts sequenceNames ∅ = (Ok results, t) ->
  exists files,
    export_csv opts sequenceNames results = Some files /\
    length files = (if onlineEvaluation opts then length sequenceNames else 0%nat).
Proof.
  intros Hrun.
  assert (Hinv : forall s, results_invariant (results_at results s) /\
                           poseCount (results_at results s) <= INT_MAX).
  { apply (evaluate_sequences_invariant acosf garbage fuel fs opts sequenceNames ∅ results t);
      [|done].
    intros s. unfold results_at. rewrite lookup_total_empty.
    split; [apply results_invariant_default|done]. }
  unfold export_csv. destruct (onlineEvaluation opts); [|by exists []].
  assert (exists files,
            Forall2 (λ s file, export_sequence (relocTag opts) results s = Some file)
                    sequenceNames files) as [files Hfiles].
  { clear Hrun. induction sequenceNames as [|s rest [files Hfiles]].
    - exists []. constructor.
    - destruct (Hinv s) as [Hs Hmax].
      destruct (export_sequence_file (relocTag opts) results s Hs Hmax) as (file & Hfile & _).
      exists (file :: files). by constructor. }
  exists files. split; [by apply mapM_Some_2|]. symmetry. by eapply Forall2_length.
Qed.

Lemma csv_export_after_driver_witness :
  exists files,
    export_csv example_options ["bad"; "good"] good_only = Some files /\
    length files = (if onlineEvaluation example_options then length ["bad"; "good"] else 0%nat).
Proof.
  apply (csv_export_after_driver acosf_at_one no_garbage_anywhere 3 two_sequences example_options
           ["bad"; "good"] good_only
           (concat (map (sequence_trace acosf_at_one no_garbage_anywhere 3 two_sequences
                           example_options) ["bad"; "good"]))).
  vm_compute. reflexivity.
Defined.


(* ===================================================================== *)
(** ** The discovery of the sequences: statements *)
(* ===================================================================== *)

Lemma has_slash_append (d name : string) : has_slash (d +:+ "/" +:+ name) = true.
Proof. induction d as [|c d IH]; [done|]. rewrite append_cons. simpl. by rewrite IH, orb_true_r. Qed.

(** The name of an entry is what [filename] gives back for its path. *)
Lemma filename_path_append (d name : string) :
  has_slash name = false -> filename (path_append d name) = name.
Proof.
  intros Hname. unfold path_append. induction d as [|c d IH].
  - change ("" +:+ "/" +:+ name) with (String "/" name). simpl. by rewrite Hname.
  - rewrite append_cons. cbn [filename]. by rewrite has_slash_append.
Qed.

Section DiscoveryFacts.

Variable dirs : directories.
Variable fs : filesystem.
Variable dataset_path : path.

Lemma is_directory_accessible (p : path) :
  fs !! p ≠ Some Inaccessible ->
  is_directory dirs fs p = (Ok (directory dirs fs p), [Status p]).
Proof. unfold is_directory, directory. by destruct (fs !! p) as [[]|]. Qed.

Lemma is_directory_Ok (p : path) (b : bool) (t : list event) :
  is_directory dirs fs p = (Ok b, t) ->
  b = directory dirs fs p /\ fs !! p ≠ Some Inaccessible.
Proof.
  unfold is_directory, directory.
  destruct (fs !! p) as [[]|]; intros [= <- _] || discriminate; done.
Qed.

Definition stored_names (entries : list string) : list string :=
  map (λ name, filename (path_append dataset_path name))
      (filter (λ name, is_sequence dirs fs dataset_path name = true) entries).

Lemma collect_sequences_Ok (entries : list string) :
  forall (sequences result : list string) (t : list event),
    collect_sequences dirs fs dataset_path entries sequences = (Ok result, t) ->
    Forall (examinable dirs fs dataset_path) entries /\
    result = sequences ++ stored_names entries.
Proof.
  induction entries as [|name rest IH]; intros sequences result t H.
  - apply ret_Ok in H as [<- _]. split; [constructor|]. by rewrite app_nil_r.
  - cbn [collect_sequences] in H.
    apply bind_Ok in H as (has_train & ? & ? & [-> Htrain]%is_directory_Ok & H1 & _).
    apply bind_Ok in H1 as (both & ? & ? & Hboth & H2 & _).
    apply IH in H2 as [Hrest ->].
    assert (both = is_sequence dirs fs dataset_path name /\
            examinable dirs fs dataset_path name) as [-> Hname].
    { unfold is_sequence, examinable.
      destruct (directory dirs fs (path_append (path_append dataset_path name)
                                     trainFolderName)).
      - apply is_directory_Ok in Hboth as [-> Htest]. done.
      - apply ret_Ok in Hboth as [<- _]. done. }
    split; [by constructor|].
    unfold stored_names. rewrite filter_cons.
    destruct (is_sequence dirs fs dataset_path name) eqn:Hseq.
    + rewrite decide_True by done. cbn [map]. by rewrite <- app_assoc.
    + by rewrite decide_False.
Qed.

Lemma collect_sequences_examinable (entries : list string) :
  forall sequences : list string,
    Forall (examinable dirs fs dataset_path) entries ->
    (collect_sequences dirs fs dataset_path entries sequences).1
      = Ok (sequences ++ stored_names entries).
Proof.
  induction entries as [|name rest IH]; intros sequences Hall.
  - simpl. by rewrite app_nil_r.
  - apply Forall_cons in Hall as [[Htrain Htest] Hrest].
    cbn [collect_sequences].
    rewrite (bind_eq_Ok _ _ _ _ (is_directory_accessible _ Htrain)). cbn [fst].
    unfold stored_names. rewrite filter_cons.
    destruct (decide (is_sequence dirs fs dataset_path name = true)) as [Hseq|Hseq];
      unfold is_sequence in Hseq;
      destruct (directory dirs fs (path_append (path_append dataset_path name)
                                     trainFolderName)) eqn:Hdir.
    + rewrite andb_true_l in Hseq.
      rewrite (bind_eq_Ok _ _ _ _ (is_directory_accessible _ (Htest eq_refl))). cbn [fst].
      rewrite Hseq, IH by done. cbn [map]. by rewrite <- app_assoc.
    + done.
    + rewrite andb_true_l in Hseq. apply not_true_is_false in Hseq.
      rewrite (bind_eq_Ok _ _ _ _ (is_directory_accessible _ (Htest eq_refl))). cbn [fst].
      by rewrite Hseq, IH.
    + rewrite (bind_eq_Ok _ _ false []) by done. cbn [fst].
      by rewrite IH.
Qed.

Lemma stored_names_entries (entries : list string) :
  Forall (λ name, has_slash name = false) entries ->
  stored_names entries = filter (λ name, is_sequence dirs fs dataset_path name = true) entries.
Proof.
  intros Hall. unfold stored_names.
  induction Hall as [|name rest Hname _ IH]; [done|].
  rewrite filter_cons. destruct (decide _); [|done].
  cbn [map]. by rewrite IH, filename_path_append.
Qed.

Lemma find_sequence_names_Ok (names : list string) (t : list event) :
  find_sequence_names dirs fs dataset_path = (Ok names, t) ->
  exists entries,
    dirs !! dataset_path = Some entries /\
    Forall (examinable dirs fs dataset_path) entries /\
    names = merge_sort String.le (stored_names entries).
Proof.
  unfold find_sequence_names. intros H.
  apply bind_Ok in H as (entries & ? & ? & Hentries & H1 & _).
  apply bind_Ok in H1 as (sequences & ? & ? & [Hall ->]%collect_sequences_Ok & H2 & _).
  apply ret_Ok in H2 as [<- _].
  exists entries. split; [|done].
  unfold directory_entries in Hentries.
  destruct (fs !! dataset_path) as [[]|]; try discriminate.
  destruct (dirs !! dataset_path); [|discriminate]. by injection Hentries as ->.
Qed.

End DiscoveryFacts.

(** X18. The names the discovery returns are sorted, and they are, each as
    often as it occurs, the entries of the dataset folder that have both a
    train and a test subfolder. *)
Theorem find_sequence_names_sorted (dirs : directories) (fs : filesystem)
    (dataset_path : path) (entries names : list string) (t : list event) :
  dirs !! dataset_path = Some entries ->
  Forall (λ name, has_slash name = false) entries ->
  find_sequence_names dirs fs dataset_path = (Ok names, t) ->
  StronglySorted String.le names /\
  names ≡ₚ filter (λ name, is_sequence dirs fs dataset_path name = true) entries.
Proof.
  intros Hentries Hnames (entries' & Hentries' & _ & ->)%find_sequence_names_Ok.
  rewrite Hentries in Hentries'. injection Hentries' as <-.
  split.
  - apply StronglySorted_merge_sort; apply _.
  - by rewrite merge_sort_Permutation, stored_names_entries.
Qed.

Lemma find_sequence_names_sorted_witness :
  StronglySorted String.le ["kitchen"; "office"] /\
  ["kitchen"; "office"] ≡ₚ
    filter (λ name, is_sequence (dataset_directories ["office"; "notes"; "kitchen"])
                      dataset_nodes "data" name = true)
           ["office"; "notes"; "kitchen"].
Proof.
  eapply (find_sequence_names_sorted (dataset_directories ["office"; "notes"; "kitchen"])
            dataset_nodes "data" ["office"; "notes"; "kitchen"] ["kitchen"; "office"]).
  - vm_compute. reflexivity.
  - repeat constructor.
  - vm_compute. reflexivity.
Defined.

(** X19. The discovery does not depend on the order in which the directory
    iterator yields the entries of the dataset folder: with the entries in
    any other order it returns the same names in the same order. *)
Theorem find_sequence_names_order_independent (dirs : directories) (fs : filesystem)
    (dataset_path : path) (entries entries' names : list string) :
  dirs !! dataset_path = Some entries ->
  entries ≡ₚ entries' ->
  Forall (λ name, has_slash name = false) entries ->
  (find_sequence_names dirs fs dataset_path).1 = Ok names ->
  (find_sequence_names (<[dataset_path := entries']> dirs) fs dataset_path).1 = Ok names.
Proof.
  intros Hentries Hperm Hnames Hfind.
  destruct (find_sequence_names dirs fs dataset_path) as [o t] eqn:Hrun.
  simpl in Hfind. subst o.
  pose proof Hrun as (entries0 & Hentries0 & Hall & ->)%find_sequence_names_Ok.
  rewrite Hentries in Hentries0. injection Hentries0 as <-.
  set (dirs' := <[dataset_path := entries']> dirs).
  assert (Hdir : forall p, directory dirs' fs p = directory dirs fs p).
  { intros p. unfold directory, dirs'. destruct (fs !! p) as [[]|]; try done.
    destruct (decide (p = dataset_path)) as [->|Hne].
    - rewrite lookup_insert_eq, Hentries.
      by rewrite !bool_decide_eq_true_2 by (by eexists).
    - by rewrite lookup_insert_ne. }
  assert (Hseq : forall name,
            is_sequence dirs' fs dataset_path name = is_sequence dirs fs dataset_path name).
  { intros name. unfold is_sequence. by rewrite !Hdir. }
  assert (Hall' : Forall (examinable dirs' fs dataset_path) entries').
  { rewrite <- Hperm. eapply Forall_impl; [exact Hall|].
    intros name [H1 H2]. split; [done|]. by rewrite Hdir. }
  assert (Hopen : directory_entries dirs' fs dataset_path = (Ok entries', [Read dataset_path])).
  { unfold find_sequence_names in Hrun.
    apply bind_Ok in Hrun as (? & ? & ? & Hopen & _).
    unfold directory_entries in *. unfold dirs'. rewrite lookup_insert_eq.
    by destruct (fs !! dataset_path) as [[]|]. }
  unfold find_sequence_names.
  rewrite (bind_eq_Ok _ _ _ _ Hopen). cbn [fst].
  pose proof (collect_sequences_examinable dirs' fs dataset_path entries' [] Hall') as Hcollect.
  destruct (collect_sequences dirs' fs dataset_path entries' []) as [o' t'] eqn:Hc.
  simpl in Hcollect. subst o'. cbn. f_equal.
  assert (Hnames' : Forall (λ name, has_slash name = false) entries') by by rewrite <- Hperm.
  rewrite !stored_names_entries by done.
  apply (StronglySorted_unique String.le).
  - apply StronglySorted_merge_sort; apply _.
  - apply StronglySorted_merge_sort; apply _.
  - rewrite !merge_sort_Permutation.
    rewrite <- Hperm.
    assert (Hfilter : filter (λ name, is_sequence dirs' fs dataset_path name = true) entries
                      = filter (λ name, is_sequence dirs fs dataset_path name = true) entries).
    { clear -Hseq. induction entries as [|name rest IH]; [done|].
      rewrite !filter_cons, IH.
      destruct (decide (is_sequence dirs' fs dataset_path name = true)) as [H|H];
        rewrite Hseq in H; [by rewrite decide_True|by rewrite decide_False]. }
    by rewrite Hfilter.
Qed.

Lemma find_sequence_names_order_independent_witness :
  (find_sequence_names
     (<["data" := ["kitchen"; "office"; "notes"] ]>
        (dataset_directories ["office"; "notes"; "kitchen"]))
     dataset_nodes "data").1 = Ok ["kitchen"; "office"].
Proof.
  apply (find_sequence_names_order_independent
           (dataset_directories ["office"; "notes"; "kitchen"]) dataset_nodes "data"
           ["office"; "notes"; "kitchen"] ["kitchen"; "office"; "notes"]).
  - vm_compute. reflexivity.
  - symmetry. apply (Permutation_cons_append ["office"; "notes"] "kitchen").
  - repeat constructor.
  - vm_compute. reflexivity.
Defined.


Lemma is_directory_outcome (dirs : directories) (fs : filesystem) (p : path) :
  (exists b, is_directory dirs fs p = (Ok b, [Status p])) \/
  is_directory dirs fs p = (Throw (filesystem_error p), [Status p]).
Proof.
  unfold is_directory. destruct (fs !! p) as [[]|]; [left|left|right|left]; by eauto.
Qed.

(** The scan of the entries ends with a list of names or with a
    [filesystem_error], and writes nothing. *)
Lemma collect_sequences_outcome (dirs : directories) (fs : filesystem) (dataset_path : path)
    (entries : list string) :
  forall sequences : list string,
    silent (collect_sequences dirs fs dataset_path entries sequences).2 /\
    ((exists names, (collect_sequences dirs fs dataset_path entries sequences).1 = Ok names) \/
     filesystem_failure (collect_sequences dirs fs dataset_path entries sequences).1).
Proof.
  assert (Hstatus : forall p, silent [Status p]).
  { intros p. constructor; [by eexists|constructor]. }
  induction entries as [|name rest IH]; intros sequences.
  - split; [constructor|]. left. by eexists.
  - cbn [collect_sequences].
    destruct (is_directory_outcome dirs fs
                (path_append (path_append dataset_path name) trainFolderName))
      as [[has_train Htrain]|Htrain].
    2:{ rewrite (bind_eq_Throw _ _ _ _ Htrain). split; [apply Hstatus|by right]. }
    rewrite (bind_eq_Ok _ _ _ _ Htrain).
    assert (Hboth :
      (exists both t, silent t /\
         (if has_train
          then is_directory dirs fs (path_append (path_append dataset_path name) testFolderName)
          else mret false) = (Ok both, t)) \/
      (exists p t, silent t /\
         (if has_train
          then is_directory dirs fs (path_append (path_append dataset_path name) testFolderName)
          else mret false) = (Throw (filesystem_error p), t))).
    { destruct has_train.
      - destruct (is_directory_outcome dirs fs
                    (path_append (path_append dataset_path name) testFolderName))
          as [[both ->]| ->]; [left|right]; eauto.
      - left. exists false, []. split; [constructor|done]. }
    destruct Hboth as [(both & t & Ht & ->)|(p & t & Ht & ->)].
    + rewrite (bind_eq_Ok _ _ both t) by done. cbn [fst snd].
      destruct (IH (if both then sequences ++ [filename (path_append dataset_path name)]
                    else sequences)) as [Hsilent Hout].
      split; [|done]. apply Forall_app. split; [apply Hstatus|].
      by apply Forall_app.
    + rewrite (bind_eq_Throw _ _ (filesystem_error p) t) by done. cbn [fst snd].
      split; [|by right]. apply Forall_app. split; [apply Hstatus|done].
Qed.

(** X20. The rows of the table that a completed run prints are the names the
    discovery found, one row each, in increasing order of the names. *)
Theorem relocperf_table_sorted (acosf : float -> float) (garbage : path -> nat -> float)
    (fuel : nat) (dirs : directories) (fs : filesystem) (opts : Options)
    (report : Report) (t : list event) :
  relocperf acosf garbage fuel dirs fs opts = (Ok report, t) ->
  (find_sequence_names dirs fs (datasetFolder opts)).1
    = Ok (map row_sequence (report_table report)) /\
  StronglySorted String.le (map row_sequence (report_table report)).
Proof.
  unfold relocperf. intros H.
  apply bind_Ok in H as (names & t1 & ? & Hfind & Hmain & _).
  unfold main in Hmain.
  apply bind_Ok in Hmain as (results & ? & ? & _ & H1 & _).
  apply bind_Ok in H1 as (summary & ? & ? & _ & H2 & _).
  apply bind_Ok in H2 as (csv & ? & ? & _ & H3 & _).
  apply ret_Ok in H3 as [<- _]. cbn [report_table].
  assert (Hrows : map row_sequence (map (table_row results) names) = names).
  { clear. induction names as [|s names IH]; [done|]. cbn. by rewrite IH. }
  rewrite Hrows, Hfind. split; [done|].
  apply find_sequence_names_Ok in Hfind as (entries & _ & _ & ->).
  apply StronglySorted_merge_sort; apply _.
Qed.

Lemma relocperf_table_sorted_witness :
  (find_sequence_names (dataset_directories ["office"; "notes"; "kitchen"])
     dataset_with_poses "data").1 = Ok ["kitchen"; "office"] /\
  StronglySorted String.le ["kitchen"; "office"].
Proof.
  exact (relocperf_table_sorted acosf_at_one no_garbage_anywhere 3
           (dataset_directories ["office"; "notes"; "kitchen"]) dataset_with_poses
           example_options dataset_report dataset_trace
           ltac:(vm_compute; reflexivity)).
Defined.

(** X21. When the status of the train subfolder of one entry of the dataset
    folder cannot be determined, the whole program ends with a
    [filesystem_error]: no sequence is evaluated and nothing is printed,
    whatever the other entries are. *)
Theorem relocperf_unreadable_entry (acosf : float -> float) (garbage : path -> nat -> float)
    (fuel : nat) (dirs : directories) (fs : filesystem) (opts : Options)
    (entries : list string) (name : string) :
  fs !! datasetFolder opts = Some NotRegular ->
  dirs !! datasetFolder opts = Some entries ->
  name ∈ entries ->
  fs !! path_append (path_append (datasetFolder opts) name) trainFolderName
    = Some Inaccessible ->
  filesystem_failure (relocperf acosf garbage fuel dirs fs opts).1 /\
  silent (relocperf acosf garbage fuel dirs fs opts).2.
Proof.
  intros Hnode Hentries Hname Htrain.
  unfold relocperf, find_sequence_names.
  assert (Hopen : directory_entries dirs fs (datasetFolder opts)
                  = (Ok entries, [Read (datasetFolder opts)])).
  { unfold directory_entries. by rewrite Hnode, Hentries. }
  destruct (collect_sequences_outcome dirs fs (datasetFolder opts) entries [])
    as [Hsilent [[names Hok]|Hfail]].
  - destruct (collect_sequences dirs fs (datasetFolder opts) entries []) as [o t'] eqn:Hc.
    simpl in Hok. subst o.
    apply collect_sequences_Ok in Hc as [Hall _].
    rewrite Forall_forall in Hall. destruct (Hall name Hname) as [Hne _].
    by rewrite Htrain in Hne.
  - destruct (collect_sequences dirs fs (datasetFolder opts) entries []) as [o t'] eqn:Hc.
    destruct o as [|[|p]| |]; try done.
    assert (Hfind : (directory_entries dirs fs (datasetFolder opts) ≫= λ entries0,
                       collect_sequences dirs fs (datasetFolder opts) entries0 [] ≫= λ sequences,
                         mret (merge_sort String.le sequences))
                    = (Throw (filesystem_error p), [Read (datasetFolder opts)] ++ t')).
    { eapply bind_run; [exact Hopen|]. by rewrite (bind_eq_Throw _ _ _ _ Hc). }
    rewrite (bind_eq_Throw _ _ _ _ Hfind). split; [done|].
    constructor; [by eexists|exact Hsilent].
Qed.

Lemma relocperf_unreadable_entry_witness :
  filesystem_failure
    (relocperf acosf_at_one no_garbage_anywhere 3
       (dataset_directories ["office"; "notes"; "kitchen"])
       (<["data/notes/train" := Inaccessible]> dataset_nodes)
       {| datasetFolder := "data"; relocBaseFolder := "reloc"; relocTag := "tag";
          useValidation := false; onlineEvaluation := false |}).1 /\
  silent
    (relocperf acosf_at_one no_garbage_anywhere 3
       (dataset_directories ["office"; "notes"; "kitchen"])
       (<["data/notes/train" := Inaccessible]> dataset_nodes)
       {| datasetFolder := "data"; relocBaseFolder := "reloc"; relocTag := "tag";
          useValidation := false; onlineEvaluation := false |}).2.
Proof.
  apply (relocperf_unreadable_entry acosf_at_one no_garbage_anywhere 3
           (dataset_directories ["office"; "notes"; "kitchen"])
           (<["data/notes/train" := Inaccessible]> dataset_nodes)
           {| datasetFolder := "data"; relocBaseFolder := "reloc"; relocTag := "tag";
              useValidation := false; onlineEvaluation := false |}
           ["office"; "notes"; "kitchen"] "notes").
  - vm_compute. reflexivity.
  - vm_compute. reflexivity.
  - apply elem_of_cons. right. apply elem_of_cons. left. reflexivity.
  - vm_compute. reflexivity.
Defined.


(* ===================================================================== *)
(** ** The files an evaluation reads *)
(* ===================================================================== *)

Lemma bind_trace {A B : Type} (m : IO A) (f : A -> IO B) :
  (m ≫= f).2 = m.2 ++ match m.1 with Ok a => (f a).2 | _ => [] end.
Proof.
  destruct m as [[a| | |] t]; simpl; rewrite ?app_nil_r; try done.
  unfold mbind, io_bind. by destruct (f a).
Qed.

Lemma reads_app (t1 t2 : list event) : reads (t1 ++ t2) = reads t1 ++ reads t2.
Proof. apply omap_app. Qed.

Lemma defined_bind_reads {A B : Type} (o : option A) (f : A -> IO B) :
  (forall a, reads (f a).2 = []) -> reads (defined o ≫= f).2 = [].
Proof. intros H. rewrite bind_trace. destruct o; simpl; [apply H|done]. Qed.

(** The four files of a frame are four different files. *)
Lemma frame_paths_NoDup (gtFolder relocFolder : path) (i : Z) :
  NoDup (frame_paths gtFolder relocFolder i).
Proof.
  unfold frame_paths, result_paths.
  rewrite gt_path_shape, reloc_path_shape, icp_path_shape, final_path_shape.
  repeat (apply NoDup_cons; split; [rewrite ?elem_of_cons, elem_of_nil|]);
    [..|apply NoDup_nil_2];
    intros H; repeat (destruct H as [H|H]); try done;
    revert H; apply other_shape_clash; intros l l' Hl; simpl in Hl; discriminate Hl.
Qed.

(** The files of any stretch of frames are pairwise different files. *)
Lemma frames_NoDup (gtFolder relocFolder : path) (n : nat) :
  forall i : nat,
    NoDup (concat (map (λ k : nat, frame_paths gtFolder relocFolder (Z.of_nat k)) (seq i n))).
Proof.
  induction n as [|n IH]; intros i; [apply NoDup_nil_2|].
  cbn [seq map concat]. apply NoDup_app. split; [apply frame_paths_NoDup|]. split; [|apply IH].
  intros p Hp (l & Hpl & Hl)%elem_of_concat.
  apply list_elem_of_In, in_map_iff in Hl as (k & <- & Hk).
  apply in_seq in Hk.
  assert (Z.of_nat i = Z.of_nat k); [|lia].
  apply (frame_paths_disjoint gtFolder relocFolder _ _ p); [lia|lia|done|done].
Qed.

Section ReadsFacts.

Variable acosf : float -> float.
Variable garbage : path -> nat -> float.
Variable fs : filesystem.
Variable gtFolder relocFolder : path.

Lemma pose_file_matches_reads (gtPose : Matrix4f) (p : path) :
  sublist (reads (pose_file_matches acosf garbage fs gtPose p).2) [p].
Proof.
  destruct (fs !! p) as [[content| |]|] eqn:Hp.
  - by rewrite (pose_file_matches_regular acosf garbage fs gtPose p content Hp).
  - rewrite (pose_file_matches_missing acosf garbage fs gtPose p) by (by right).
    apply sublist_nil_l.
  - rewrite (pose_file_matches_inaccessible acosf garbage fs gtPose p Hp).
    apply sublist_nil_l.
  - rewrite (pose_file_matches_missing acosf garbage fs gtPose p) by (by left).
    apply sublist_nil_l.
Qed.

(** A turn of the loop reads files of its own frame only, each at most
    once, whatever its outcome. *)
Lemma evaluate_frame_reads (i : Z) (st : LoopState) :
  at_frame gtFolder relocFolder i st ->
  sublist (reads (evaluate_frame acosf garbage fs st).2) (frame_paths gtFolder relocFolder i).
Proof.
  intros [Hgt Hreloc _ _].
  unfold evaluate_frame. cbv zeta. rewrite Hgt, Hreloc.
  change (make_path _ "frame-%06i.pose.txt") with (gt_path gtFolder i).
  change (make_path _ "pose-%06i.reloc.txt") with (reloc_path relocFolder i).
  change (make_path _ "pose-%06i.icp.txt") with (icp_path relocFolder i).
  change (make_path _ "pose-%06i.final.txt") with (final_path relocFolder i).
  rewrite bind_trace, is_regular_cases.
  destruct (fs !! gt_path gtFolder i) as [[content| |]|] eqn:Hcontent;
    cbn [fst snd negb]; try apply sublist_nil_l.
  rewrite bind_trace, (read_pose_from_file_regular _ fs _ content Hcontent).
  cbn [fst snd app reads omap]. unfold frame_paths. apply sublist_skip.
  change (result_paths relocFolder i)
    with ([reloc_path relocFolder i] ++ [icp_path relocFolder i] ++ [final_path relocFolder i]).
  rewrite bind_trace, reads_app.
  apply sublist_app; [apply pose_file_matches_reads|].
  destruct (pose_file_matches acosf garbage fs _ (reloc_path relocFolder i)).1;
    try apply sublist_nil_l.
  rewrite bind_trace, reads_app.
  apply sublist_app; [apply pose_file_matches_reads|].
  destruct (pose_file_matches acosf garbage fs _ (icp_path relocFolder i)).1;
    try apply sublist_nil_l.
  rewrite bind_trace, reads_app, <- (app_nil_r [final_path relocFolder i]).
  apply sublist_app; [apply pose_file_matches_reads|].
  destruct (pose_file_matches acosf garbage fs _ (final_path relocFolder i)).1;
    try apply sublist_nil_l.
  rewrite defined_bind_reads; [done|]. intros ?.
  repeat (apply defined_bind_reads; intros ?). reflexivity.
Qed.

Lemma evaluate_loop_reads (fuel : nat) :
  forall (i : nat) (st : LoopState),
    at_frame gtFolder relocFolder (Z.of_nat i) st ->
    sublist (reads (evaluate_loop acosf garbage fuel fs st).2)
      (concat (map (λ k : nat, frame_paths gtFolder relocFolder (Z.of_nat k)) (seq i fuel))).
Proof.
  induction fuel as [|fuel IH]; intros i st Hat; [done|].
  cbn [evaluate_loop seq map concat]. rewrite bind_trace, reads_app.
  apply sublist_app; [by apply evaluate_frame_reads|].
  destruct (evaluate_frame acosf garbage fs st) as [[[st'|]| | |] t] eqn:Hstep;
    cbn [fst]; try apply sublist_nil_l.
  apply IH.
  destruct (evaluate_frame_decisions acosf garbage fs gtFolder relocFolder _ _ _ _ Hat Hstep)
    as [Hat' _].
  by replace (Z.of_nat i + 1) with (Z.of_nat (S i)) in Hat' by lia.
Qed.

End ReadsFacts.

(** X22. An evaluation of a sequence reads no file twice, whatever its
    outcome: the files it opens, in the order of the reads, are pairwise
    different. Every call of the parser in an evaluation is thus the one call
    for its file. *)
Theorem evaluate_sequence_reads_once (acosf : float -> float)
    (garbage : path -> nat -> float) (fuel : nat) (fs : filesystem)
    (gtFolder relocFolder : path) :
  NoDup (reads (evaluate_sequence acosf garbage fuel fs gtFolder relocFolder).2).
Proof.
  apply (sublist_NoDup _
           (concat (map (λ k : nat, frame_paths gtFolder relocFolder (Z.of_nat k))
                        (seq 0 fuel)))).
  - apply frames_NoDup.
  - apply (evaluate_loop_reads acosf garbage fs gtFolder relocFolder fuel 0).
    constructor; [done|done|done|apply results_invariant_default].
Qed.
